(** * remove_unregistered: a shallow embedding of src/remove_unregistered.rs

    The program asks rtorrent for its torrents, keeps those whose tracker
    message says "Unregistered torrent", and removes their descriptor
    files and content ([delete], [delete_from_filesystem]).

    Model:
    - a path is the string the program holds.  [std::path::Path]'s own
      methods ([is_absolute], [starts_with], [ends_with], equality) work
      on its [components]; [Path::parent] and [ancestors] cut the string
      itself; [join] concatenates strings;
    - the system calls parse the string as Linux does ([kcomps]): empty
      segments are skipped, "." and ".." are kept, a trailing '/' asks
      for a directory, the empty path does not exist;
    - the filesystem is a [gmap] from a physical location (the list of
      names from "/") to an inode kind: directory, regular file or symlink
      with its target; the working directory is "/";
    - every I/O primitive appends the call it performs to a trace, so
      that the order of effects can be stated;
    - [outcome] distinguishes [Ok], an [io::Error] ([Err]) and a panic
      ([Panic]: an [assert!], [assert_eq!], [assert_ne!], [unwrap] or
      [panic!] that fails).  A panic is not caught anywhere in the program,
      so it ends the whole run;
    - strings are byte strings (UTF-8 text); [str::to_lowercase], Unicode
      lower-casing, is a parameter [lowercase] of the driver, of which only
      its ASCII behaviour is assumed where a statement needs it.
    Permissions, mount points and path length limits are not modelled. *)

From Stdlib Require Import Ascii String.
From stdpp Require Import base list gmap strings sorting.


(* ------------------------------------------------------------------ *)
(** ** Paths *)

Inductive component :=
| RootDir
| CurDir
| ParentDir
| Normal (s : string).

Global Instance component_eq_dec : EqDecision component.
Proof. solve_decision. Defined.

Definition path := list component.

Definition slash : ascii := "/"%char.
Definition dot : ascii := "."%char.

(** Splitting a string at every '/'. *)
Fixpoint split_slash_aux (s cur : string) : list string :=
  match s with
  | EmptyString => [cur]
  | String c s' =>
      if Ascii.eqb c slash then cur :: split_slash_aux s' EmptyString
      else split_slash_aux s' (String.append cur (String c EmptyString))
  end.

Definition split_slash (s : string) : list string := split_slash_aux s EmptyString.

Definition has_root (s : string) : bool :=
  match s with
  | String c _ => Ascii.eqb c slash
  | EmptyString => false
  end.

(** Rust keeps a leading "." of a relative path as [CurDir]. *)
Definition include_cur_dir (s : string) : bool :=
  match s with
  | String c EmptyString => Ascii.eqb c dot
  | String c (String c' _) => Ascii.eqb c dot && Ascii.eqb c' slash
  | EmptyString => false
  end.

Fixpoint normal_components (segs : list string) : list component :=
  match segs with
  | [] => []
  | seg :: segs' =>
      if String.eqb seg ""%string then normal_components segs'
      else if String.eqb seg "."%string then normal_components segs'
      else if String.eqb seg ".."%string then ParentDir :: normal_components segs'
      else Normal seg :: normal_components segs'
  end.

(** [Path::new(s).components()]. *)
Definition components (s : string) : path :=
  (if has_root s then [RootDir] else [])
  ++ (if has_root s then [] else if include_cur_dir s then [CurDir] else [])
  ++ normal_components (split_slash s).

Definition is_absolute (p : path) : bool :=
  match p with RootDir :: _ => true | _ => false end.

Definition is_relative (p : path) : bool := negb (is_absolute p).

Fixpoint comp_prefix (base p : path) : bool :=
  match base, p with
  | [], _ => true
  | c :: base', c' :: p' => bool_decide (c = c') && comp_prefix base' p'
  | _ :: _, [] => false
  end.

(** [p.starts_with(base)] and [p.ends_with(child)], component-wise. *)
Definition starts_with (p base : path) : bool := comp_prefix base p.
Definition ends_with (p child : path) : bool :=
  comp_prefix (rev child) (rev p).

(** The string ends in '/'. *)
Fixpoint ends_in_slash (s : string) : bool :=
  match s with
  | EmptyString => false
  | String c EmptyString => Ascii.eqb c slash
  | String _ s' => ends_in_slash s'
  end.

(** [base.join(p)] ([PathBuf::push]) on the strings: an absolute [p]
    replaces [base]; otherwise a '/' is put between them unless [base]
    is empty or already ends in '/'. *)
Definition path_push (base p : string) : string :=
  if has_root p then p
  else if (negb (String.eqb base "")) && negb (ends_in_slash base)
       then String.append base (String slash p)
       else String.append base p.

(** A segment that stands for a component of [Path::components]: not
    empty and not ".". *)
Definition is_sig (seg : string) : bool :=
  negb (String.eqb seg "") && negb (String.eqb seg ".").

Fixpoint drop_insig (l : list string) : list string :=
  match l with
  | [] => []
  | seg :: l' => if is_sig seg then l else drop_insig l'
  end.

(** [Path::parent] on the string: the slice up to the last separator
    run before the last component ([Components::next_back] and
    [trim_right]); [None] for "/" and "". *)
Definition parent (s : string) : option string :=
  match drop_insig (rev (split_slash s)) with
  | [] => if has_root s then None else if include_cur_dir s then Some ""%string else None
  | _ :: r =>
      match drop_insig r with
      | [] => Some (if has_root s then "/"%string
                    else if include_cur_dir s then "."%string else ""%string)
      | r' => Some (String.concat "/" (rev r'))
      end
  end.

(** [Path::ancestors] after the path itself: the chain of parents. *)
Fixpoint ancestors_from (fuel : nat) (s : string) : list string :=
  match fuel with
  | 0 => []
  | S fuel' =>
      match parent s with
      | Some q => q :: ancestors_from fuel' q
      | None => []
      end
  end.

(** [path.ancestors().skip(1).filter(|p| !p.as_os_str().is_empty())]:
    string slices of [path], longest first. *)
Definition ancestors (s : string) : list string :=
  filter (fun q => negb (String.eqb q "")) (ancestors_from (String.length s) s).

(** [HashSet<&Path>::insert]: paths are equal when their components
    are; an equal path already in the set is kept, not replaced. *)
Definition set_insert (d : string) (s : list string) : list string :=
  if existsb (fun d' => bool_decide (components d' = components d)) s then s else s ++ [d].

(* ------------------------------------------------------------------ *)
(** ** Filesystem *)

Inductive node :=
| NDir
| NFile
| NSymlink (target : string).

(** The errors of the system calls; [ENUL] is the [InvalidInput] error
    std returns, without a system call, for a path holding a NUL byte. *)
Inductive io_error :=
| ENOENT | ENOTDIR | EISDIR | ENOTEMPTY | EBUSY | EINVAL | ELOOP | ENUL.

Global Instance io_error_eq_dec : EqDecision io_error.
Proof. solve_decision. Defined.

Inductive res (A : Type) :=
| ROk (a : A)
| RErr (e : io_error).
Arguments ROk {A} a.
Arguments RErr {A} e.

(** The root directory always exists. *)
Definition node_at (fs : gmap (list string) node) (k : list string) : option node :=
  match k with [] => Some NDir | _ => fs !! k end.

Definition is_dir (fs : gmap (list string) node) (k : list string) : bool :=
  match node_at fs k with Some NDir => true | _ => false end.

(** The components the kernel walks: every non-empty segment, "." and
    ".." included ([Path::components] drops the "." ones). *)
Fixpoint kernel_components (segs : list string) : path :=
  match segs with
  | [] => []
  | seg :: segs' =>
      if String.eqb seg ""%string then kernel_components segs'
      else if String.eqb seg "."%string then CurDir :: kernel_components segs'
      else if String.eqb seg ".."%string then ParentDir :: kernel_components segs'
      else Normal seg :: kernel_components segs'
  end.

Definition kcomps (s : string) : path :=
  (if has_root s then [RootDir] else []) ++ kernel_components (split_slash s).

(** A trailing '/' asks for a directory, as a final "." does. *)
Definition kwalk_path (s : string) : path :=
  kcomps s ++ (if ends_in_slash s then [CurDir] else []).

Fixpoint has_nul (s : string) : bool :=
  match s with
  | EmptyString => false
  | String c s' => Ascii.eqb c zero || has_nul s'
  end.

(** A symlink's target as the kernel reads it: up to the first NUL byte. *)
Fixpoint cstr (s : string) : string :=
  match s with
  | EmptyString => EmptyString
  | String c s' => if Ascii.eqb c zero then EmptyString else String c (cstr s')
  end.

(** Symlink limit of the kernel path walk. *)
Definition max_links : nat := 40.

(** One pass of the kernel path walk from directory [cur]; a symlink met
    on the way is resolved by [follow] from the directory holding it. *)
Fixpoint walk_from (follow : list string -> string -> res (list string))
    (fs : gmap (list string) node) (cur : list string) (p : path) : res (list string) :=
  match p with
  | [] => ROk cur
  | RootDir :: q => walk_from follow fs [] q
  | c :: q =>
      if is_dir fs cur then
        match c with
        | Normal s =>
            let k := cur ++ [s] in
            match fs !! k with
            | None => RErr ENOENT
            | Some (NSymlink t) =>
                match follow cur t with
                | ROk k' => walk_from follow fs k' q
                | RErr e => RErr e
                end
            | Some _ => walk_from follow fs k q
            end
        | ParentDir => walk_from follow fs (removelast cur) q
        | _ => walk_from follow fs cur q
        end
      else RErr ENOTDIR
  end.

(** Path walk following every symlink, at most [n] symlinks deep. *)
Fixpoint resolve (n : nat) (fs : gmap (list string) node) (cur : list string)
    (p : path) : res (list string) :=
  walk_from (fun cur' t =>
               match n with
               | 0 => RErr ELOOP
               | S n' => if String.eqb (cstr t) "" then RErr ENOENT
                         else resolve n' fs cur' (kwalk_path (cstr t))
               end) fs cur p.

Definition walk (fs : gmap (list string) node) (p : path) : res (list string) :=
  resolve max_links fs [] p.

(** What [stat] and [realpath] reach, following every symlink. *)
Definition resolve_path (fs : gmap (list string) node) (s : string) : res (list string) :=
  if has_nul s then RErr ENUL
  else if String.eqb s "" then RErr ENOENT
  else match walk fs (kwalk_path s) with
       | ROk k =>
           match node_at fs k with
           | Some _ => ROk k
           | None => RErr ENOENT
           end
       | RErr e => RErr e
       end.

(** The directory holding the last component. *)
Definition parent_walk (fs : gmap (list string) node) (p : path) : res (list string) :=
  match walk fs (removelast p) with
  | ROk d => if is_dir fs d then ROk d else RErr ENOTDIR
  | RErr e => RErr e
  end.

(** The entry [lstat] describes: a last component that is a name, with
    no trailing '/', is not followed; otherwise the walk follows it. *)
Definition lookup_entry (fs : gmap (list string) node) (s : string)
    : res (list string * node) :=
  let follow_entry :=
    match walk fs (kwalk_path s) with
    | ROk k =>
        match node_at fs k with
        | Some nd => ROk (k, nd)
        | None => RErr ENOENT
        end
    | RErr e => RErr e
    end in
  if has_nul s then RErr ENUL
  else if String.eqb s "" then RErr ENOENT
  else match last (kcomps s) with
       | Some (Normal n) =>
           if ends_in_slash s then follow_entry
           else match parent_walk fs (kcomps s) with
                | ROk d =>
                    match fs !! (d ++ [n]) with
                    | Some nd => ROk (d ++ [n], nd)
                    | None => RErr ENOENT
                    end
                | RErr e => RErr e
                end
       | _ => follow_entry
       end.

Definition has_children (fs : gmap (list string) node) (k : list string) : bool :=
  existsb (fun kv => bool_decide (k `prefix_of` kv.1 /\ kv.1 <> k))
          (map_to_list fs).

(** The entry [unlink] removes. *)
Definition unlink_target (fs : gmap (list string) node) (s : string) : res (list string) :=
  if has_nul s then RErr ENUL
  else if String.eqb s "" then RErr ENOENT
  else match parent_walk fs (kcomps s) with
       | RErr e => RErr e
       | ROk d =>
           match last (kcomps s) with
           | Some (Normal n) =>
               match fs !! (d ++ [n]) with
               | None => RErr ENOENT
               | Some NDir => RErr EISDIR
               | Some _ => if ends_in_slash s then RErr ENOTDIR else ROk (d ++ [n])
               end
           | _ => RErr EISDIR
           end
       end.

(** The entry [rmdir] removes: a trailing '/' is allowed, a final "."
    is refused, a final ".." names a non-empty directory. *)
Definition rmdir_target (fs : gmap (list string) node) (s : string) : res (list string) :=
  if has_nul s then RErr ENUL
  else if String.eqb s "" then RErr ENOENT
  else match last (kcomps s) with
       | Some RootDir => RErr EBUSY
       | lc =>
           match parent_walk fs (kcomps s) with
           | RErr e => RErr e
           | ROk d =>
               match lc with
               | Some (Normal n) =>
                   match fs !! (d ++ [n]) with
                   | None => RErr ENOENT
                   | Some NDir => if has_children fs (d ++ [n]) then RErr ENOTEMPTY
                                  else ROk (d ++ [n])
                   | Some _ => RErr ENOTDIR
                   end
               | Some CurDir => RErr EINVAL
               | _ => RErr ENOTEMPTY
               end
           end
       end.

(** The path [realpath] returns for a location. *)
Definition render (k : list string) : string :=
  match k with
  | [] => "/"%string
  | _ => String.concat "/" (""%string :: k)
  end.

(* ------------------------------------------------------------------ *)
(** ** System calls and the I/O monad *)

Inductive report :=
| RUnregistered (host name : string)
| RError (name : string) (e : io_error)
| ROkLine.

(** The calls into [std::fs] (and lines printed) in the order they
    happen, with the path string they are given. *)
Inductive event :=
| ELstat (p : string)
| EStat (p : string)
| ECanonicalize (p : string)
| EUnlink (p : string)
| ERmdir (p : string)
| EPrint (r : report).

Record world := World {
  w_fs : gmap (list string) node;
  w_trace : list event
}.

Inductive outcome (A : Type) :=
| Ok (a : A)
| Err (e : io_error)
| Panic.
Arguments Ok {A} a.
Arguments Err {A} e.
Arguments Panic {A}.

Definition M (A : Type) : Type := world -> outcome A * world.

Definition ret {A} (a : A) : M A := fun w => (Ok a, w).

Definition bind {A B} (m : M A) (k : A -> M B) : M B :=
  fun w =>
    match m w with
    | (Ok a, w') => k a w'
    | (Err e, w') => (Err e, w')
    | (Panic, w') => (Panic, w')
    end.

Declare Scope io_scope.
Delimit Scope io_scope with io.
Notation "'do' x <- m ; k" := (bind m (fun x => k))
  (at level 100, m at next level, x name, k at level 200, right associativity)
  : io_scope.
Notation "m ;; k" := (bind m (fun _ => k)) : io_scope.
Local Open Scope io_scope.

(** A failed [assert!]. *)
Definition panic {A} : M A := fun w => (Panic, w).

Definition assert (b : bool) : M unit := if b then ret tt else panic.

(** [Result::unwrap]. *)
Definition unwrap {A} (m : M A) : M A :=
  fun w =>
    match m w with
    | (Err _, w') => (Panic, w')
    | r => r
    end.

(** [if let Err(e) = m { .. } else { .. }]: an error becomes a value. *)
Definition catch {A} (m : M A) : M (io_error + A) :=
  fun w =>
    match m w with
    | (Ok a, w') => (Ok (inr a), w')
    | (Err e, w') => (Ok (inl e), w')
    | (Panic, w') => (Panic, w')
    end.

Definition emit (ev : event) : M unit :=
  fun w => (Ok tt, World (w_fs w) (w_trace w ++ [ev])).

Definition of_res {A} (r : res A) : M A :=
  fun w => match r with ROk a => (Ok a, w) | RErr e => (Err e, w) end.

Definition get_fs : M (gmap (list string) node) := fun w => (Ok (w_fs w), w).

Definition put_fs (fs : gmap (list string) node) : M unit :=
  fun w => (Ok tt, World fs (w_trace w)).

(** [std::fs::symlink_metadata(p)?.file_type()]: [lstat]. *)
Definition symlink_metadata (p : string) : M node :=
  emit (ELstat p);;
  do fs <- get_fs;
  do e <- of_res (lookup_entry fs p);
  ret e.2.

(** [Path::exists]: [stat] (following symlinks) succeeds. *)
Definition path_exists (p : string) : M bool :=
  emit (EStat p);;
  do fs <- get_fs;
  ret (match resolve_path fs p with ROk _ => true | RErr _ => false end).

(** [Path::canonicalize]: [realpath]. *)
Definition canonicalize (p : string) : M string :=
  emit (ECanonicalize p);;
  do fs <- get_fs;
  do k <- of_res (resolve_path fs p);
  ret (render k).

(** [std::fs::remove_file]: [unlink]. *)
Definition remove_file (p : string) : M unit :=
  emit (EUnlink p);;
  do fs <- get_fs;
  do k <- of_res (unlink_target fs p);
  put_fs (delete k fs).

(** [std::fs::remove_dir]: [rmdir]. *)
Definition remove_dir (p : string) : M unit :=
  emit (ERmdir p);;
  do fs <- get_fs;
  do k <- of_res (rmdir_target fs p);
  put_fs (delete k fs).

(* ------------------------------------------------------------------ *)
(** ** The program *)

Section Program.

(** The order in which [directories.into_iter().collect::<Vec<_>>()]
    followed by [sort_unstable_by_key(|d| -(d.as_os_str().len()))] lists
    the set of implied directories: the iteration order of a [HashSet]
    and the order among equal keys of an unstable sort are not fixed. *)
Variable arrange : list string -> list string.

(** Lines 131-144: delete each declared file, collecting implied
    directories. *)
Fixpoint delete_files (content : string) (files : list string) (directories : list string)
    : M (list string) :=
  match files with
  | [] => ret directories
  | file :: files' =>
      assert (is_relative (components file));;
      do abspath <- unwrap (canonicalize (path_push content file));
      assert (starts_with (components abspath) (components content));;
      remove_file abspath;;
      delete_files content files'
        (fold_left (fun s a => set_insert a s) (ancestors file) directories)
  end.

(** Lines 152-157: delete the implied directories. *)
Fixpoint delete_dirs (content : string) (directories : list string) : M unit :=
  match directories with
  | [] => ret tt
  | dir :: directories' =>
      do abspath <- unwrap (canonicalize (path_push content dir));
      assert (starts_with (components abspath) (components content));;
      remove_dir abspath;;
      delete_dirs content directories'
  end.

(** Lines 112-161: removal of the content once its root has been
    classified by [lstat]. *)
Definition remove_content (content_type : node) (content : string) (files : list string)
    : M unit :=
  match content_type with
  | NSymlink _ => remove_file content
  | NFile =>
      assert (bool_decide (length files = 1));;
      match files with
      | file0 :: _ =>
          assert (ends_with (components content) (components file0));;
          remove_file content
      | [] => panic
      end
  | NDir =>
      do directories <- delete_files content files [];
      delete_dirs content (arrange directories);;
      remove_dir content
  end.

(** [if p.exists() { std::fs::remove_file(p)?; }] *)
Definition remove_if_exists (p : string) : M unit :=
  do ex <- path_exists p;
  if ex then remove_file p else ret tt.

(** Lines 104-110: remove the rtorrent download state files. *)
Definition remove_state_files (watched session : string) : M unit :=
  remove_if_exists watched;;
  remove_if_exists session.

(** [delete_from_filesystem] (lines 93-162). *)
Definition delete_from_filesystem (watched session content : string) (files : list string)
    : M unit :=
  assert (is_absolute (components content));;
  do content_type <- symlink_metadata content;
  remove_state_files watched session;;
  remove_content content_type content files.

End Program.

(** ** The driving loop *)

Definition tilde_char : ascii := "~"%char.

(** [shellexpand::tilde] with home directory [home]: a leading "~" that
    is alone or followed by '/' is replaced by [home]. *)
Definition tilde (home s : string) : string :=
  match s with
  | String c rest =>
      if Ascii.eqb c tilde_char then
        match rest with
        | EmptyString => home
        | String c' _ => if Ascii.eqb c' slash then String.append home rest else s
        end
      else s
  | EmptyString => s
  end.

(** [u8::to_ascii_lowercase]. *)
Definition lower_char (c : ascii) : ascii :=
  let n := nat_of_ascii c in
  if (65 <=? n) && (n <=? 90) then ascii_of_nat (n + 32) else c.

(** [str::to_ascii_lowercase]. *)
Fixpoint to_ascii_lowercase (s : string) : string :=
  match s with
  | EmptyString => EmptyString
  | String c s' => String (lower_char c) (to_ascii_lowercase s')
  end.



Definition quote : ascii := ascii_of_nat 34.

(** The marker of line 19: the text Tracker: [Failure reason, a space,
    a double quote, and Unregistered torrent. *)
Definition marker : string :=
  String.append "Tracker: [Failure reason "%string
    (String quote "Unregistered torrent"%string).

(** Lines 18-19, with [lowercase] for [str::to_lowercase]. *)
Definition is_unregistered (lowercase : string -> string) (msg : string) : bool :=
  String.prefix (lowercase marker) (lowercase msg).

(** What the RPC queries of [main] and [delete] return for a download:
    [d.name], [d.message], the host of the first tracker's URL ([None]
    when [trackers[0]], [Url::parse] or [host_str().unwrap()] panics),
    [d.base_path], [d.tied_to_file], [d.loaded_file] and the [f.path]
    of its files. *)
Record download := Download {
  dl_name : string;
  dl_message : string;
  dl_tracker_host : option string;
  dl_base_path : string;
  dl_tied_to_file : string;
  dl_loaded_file : string;
  dl_files : list string
}.

Section Driver.

Variable arrange : list string -> list string.
Variable home : string.
(** [str::to_lowercase]. *)
Variable lowercase : string -> string.

(** [delete] (lines 54-87). *)
Definition delete (dl : download) : M unit :=
  let content_path := tilde home (dl_base_path dl) in
  let watched_tor := tilde home (dl_tied_to_file dl) in
  let session_tor := tilde home (dl_loaded_file dl) in
  assert (negb (String.eqb content_path "/"%string));;
  assert (1 <? String.length content_path);;
  do r <- catch (delete_from_filesystem arrange watched_tor session_tor content_path
                   (dl_files dl));
  match r with
  | inl e => emit (EPrint (RError (dl_name dl) e))
  | inr _ => emit (EPrint ROkLine)
  end.

(** The loop of [main] (lines 17-42) over the downloads of the
    "default" view. *)
Fixpoint main_loop (dls : list download) : M unit :=
  match dls with
  | [] => ret tt
  | dl :: dls' =>
      if negb (is_unregistered lowercase (dl_message dl)) then main_loop dls'
      else
        match dl_tracker_host dl with
        | None => panic
        | Some shorturl =>
            emit (EPrint (RUnregistered shorturl (dl_name dl)));;
            delete dl;;
            main_loop dls'
        end
  end.

End Driver.

(* ------------------------------------------------------------------ *)
(** ** The implied directories *)

(** Lines 141-143 for one declared file. *)
Definition add_ancestors (directories : list string) (file : string) : list string :=
  fold_left (fun s a => set_insert a s) (ancestors file) directories.

(** The set the file loop builds when it runs to the end. *)
Definition implied_dirs (files : list string) : list string :=
  fold_left add_ancestors files [].

(* ------------------------------------------------------------------ *)
(** ** A concrete arrangement of the implied directories *)

(** [sort_unstable_by_key(|d| -(d.as_os_str().len() as isize))]: longer
    strings first. *)
Definition longer_first (a b : string) : Prop := String.length b <= String.length a.

Global Instance longer_first_dec : RelDecision longer_first.
Proof. intros a b. unfold longer_first. apply _. Defined.

Definition sort_dirs (l : list string) : list string := merge_sort longer_first l.

(** A filesystem built from a list of entries. *)
Definition mk_fs (l : list (list string * node)) : gmap (list string) node :=
  list_to_map l.

Definition w0 (l : list (list string * node)) : world := World (mk_fs l) [].

(** Scenario B: /data/show with S01/e1.mkv and S01/e2.mkv. *)
Definition fs_show : list (list string * node) :=
  [(["data"], NDir); (["data"; "show"], NDir); (["data"; "show"; "S01"], NDir);
   (["data"; "show"; "S01"; "e1.mkv"], NFile);
   (["data"; "show"; "S01"; "e2.mkv"], NFile);
   (["w"], NDir); (["w"; "a.torrent"], NFile);
   (["s"], NDir); (["s"; "a.torrent"], NFile)]%string.

Definition run_b : outcome unit * world :=
  delete_from_filesystem sort_dirs "/w/a.torrent" "/s/a.torrent" "/data/show/"
    ["S01/e1.mkv"; "S01/e2.mkv"]%string (w0 fs_show).

(** ** Concrete inputs *)

(** /data holds the file movie.mkv; /w/a.torrent is a directory. *)
Definition fs_watch_dir : list (list string * node) :=
  [(["data"], NDir); (["data"; "movie.mkv"], NFile);
   (["w"], NDir); (["w"; "a.torrent"], NDir);
   (["s"], NDir); (["s"; "a.torrent"], NFile)]%string.

(** A download rtorrent reports as unregistered. *)
Definition unregistered_msg : string := String.append marker "."%string.

(** The assertions of [delete] and the first one of
    [delete_from_filesystem] on the expanded content path. *)
Definition root_ok (s : string) : bool :=
  negb (String.eqb s "/"%string) && (1 <? String.length s) && is_absolute (components s).

Definition dl_rooted_at (base : string) (files : list string) : download :=
  Download "show"%string unregistered_msg (Some "tracker.example"%string) base
    "/w/a.torrent"%string "/s/a.torrent"%string files.

(** Scenario B as rtorrent reports it. *)
Definition dl_show : download :=
  dl_rooted_at "/data/show/"%string ["S01/e1.mkv"; "S01/e2.mkv"]%string.

(** A download that is still registered. *)
Definition dl_seeding : download :=
  Download "other"%string "Tracker: [Sending announce]"%string
    (Some "tracker.example"%string) "/data/other"%string
    "/w/b.torrent"%string "/s/b.torrent"%string ["other.mkv"]%string.

Definition show_root : string := "/data/show/".
Definition movie_root : string := "/data/movie.mkv".
Definition watched_a : string := "/w/a.torrent".
Definition session_a : string := "/s/a.torrent".

(** Scenario C: /data/escape.mkv lies next to the root /data/show. *)
Definition fs_escape : list (list string * node) :=
  ((["data"; "escape.mkv"], NFile) :: fs_show)%string.

(** /data/link is a symlink to the Scenario B directory. *)
Definition link_root : string := "/data/link".
Definition fs_link : list (list string * node) :=
  ((["data"; "link"], NSymlink "/data/show") :: fs_show)%string.

(** /data/empty is an empty directory; no descriptor file exists. *)
Definition empty_root : string := "/data/empty".
Definition fs_empty : list (list string * node) :=
  [(["data"], NDir); (["data"; "empty"], NDir)]%string.

(** Scenario B after the file loop has removed S01/e1.mkv. *)
Definition w_after_e1 : world :=
  snd (delete_files show_root ["S01/e1.mkv"]%string [] (w0 fs_show)).

(** /data/show holds a/b/f and a/b/c/g; the manifest spells the first
    one with a run of separators. *)
Definition fs_nested : list (list string * node) :=
  [(["data"], NDir); (["data"; "show"], NDir); (["data"; "show"; "a"], NDir);
   (["data"; "show"; "a"; "b"], NDir); (["data"; "show"; "a"; "b"; "f"], NFile);
   (["data"; "show"; "a"; "b"; "c"], NDir);
   (["data"; "show"; "a"; "b"; "c"; "g"], NFile)]%string.

Definition nested_files : list string := ["a//////b/f"; "a/b/c/g"]%string.

(* ================================================================== *)
(** * Proofs *)

Local Arguments String.append : simpl nomatch.

Definition tick (w : world) (ev : event) : world :=
  World (w_fs w) (w_trace w ++ [ev]).

Ltac run_M :=
  unfold bind, ret, emit, get_fs, put_fs, of_res, panic, assert, unwrap, catch in *;
  simpl in *.

Lemma remove_file_eq (p : string) (w : world) :
  remove_file p w =
  match unlink_target (w_fs w) p with
  | ROk k => (Ok tt, World (base.delete k (w_fs w)) (w_trace w ++ [EUnlink p]))
  | RErr e => (Err e, tick w (EUnlink p))
  end.
Proof. unfold remove_file, tick. run_M. destruct (unlink_target _ p); reflexivity. Qed.

Lemma remove_dir_eq (p : string) (w : world) :
  remove_dir p w =
  match rmdir_target (w_fs w) p with
  | ROk k => (Ok tt, World (base.delete k (w_fs w)) (w_trace w ++ [ERmdir p]))
  | RErr e => (Err e, tick w (ERmdir p))
  end.
Proof. unfold remove_dir, tick. run_M. destruct (rmdir_target _ p); reflexivity. Qed.

Lemma canonicalize_eq (p : string) (w : world) :
  canonicalize p w =
  match resolve_path (w_fs w) p with
  | ROk k => (Ok (render k), tick w (ECanonicalize p))
  | RErr e => (Err e, tick w (ECanonicalize p))
  end.
Proof. unfold canonicalize, tick. run_M. destruct (resolve_path _ p); reflexivity. Qed.

Lemma path_exists_eq (p : string) (w : world) :
  path_exists p w =
  (Ok (match resolve_path (w_fs w) p with ROk _ => true | RErr _ => false end), tick w (EStat p)).
Proof. reflexivity. Qed.

Lemma symlink_metadata_eq (p : string) (w : world) :
  symlink_metadata p w =
  match lookup_entry (w_fs w) p with
  | ROk e => (Ok e.2, tick w (ELstat p))
  | RErr e => (Err e, tick w (ELstat p))
  end.
Proof. unfold symlink_metadata, tick. run_M. destruct (lookup_entry _ p); reflexivity. Qed.

Lemma unlink_target_spec fs s k :
  unlink_target fs s = ROk k -> exists nd, fs !! k = Some nd /\ nd <> NDir /\ k <> [].
Proof.
  unfold unlink_target.
  destruct (has_nul s); [discriminate|]. destruct (String.eqb s ""); [discriminate|].
  destruct (parent_walk fs (kcomps s)) as [d|e]; [|discriminate].
  destruct (last (kcomps s)) as [[| | |n]|]; try discriminate.
  destruct (fs !! (d ++ [n])) as [nd|] eqn:E; [|discriminate].
  destruct nd; [discriminate| |]; destruct (ends_in_slash s); try discriminate;
    intros H; injection H as <-; eexists; (split; [exact E|]);
    (split; [discriminate|destruct d; discriminate]).
Qed.

Lemma rmdir_target_spec fs s k :
  rmdir_target fs s = ROk k -> fs !! k = Some NDir /\ has_children fs k = false /\ k <> [].
Proof.
  unfold rmdir_target.
  destruct (has_nul s); [discriminate|]. destruct (String.eqb s ""); [discriminate|].
  destruct (last (kcomps s)) as [[| | |n]|]; try discriminate;
    destruct (parent_walk fs (kcomps s)) as [d|e]; try discriminate.
  destruct (fs !! (d ++ [n])) as [[| |t]|] eqn:E; try discriminate.
  destruct (has_children fs (d ++ [n])) eqn:Hc; [discriminate|].
  intros H; injection H as <-. split; [exact E|]. split; [exact Hc|destruct d; discriminate].
Qed.

(** ** Relations a computation keeps between its start and end worlds *)

Definition keeps {A} (R : world -> world -> Prop) (m : M A) : Prop :=
  forall w, R w (snd (m w)).

Section Keeps.
Context (R : world -> world -> Prop) `{!PreOrder R}.

Lemma keeps_ret {A} (a : A) : keeps R (ret a).
Proof. intros w. simpl. reflexivity. Qed.

Lemma keeps_panic {A} : keeps R (@panic A).
Proof. intros w. simpl. reflexivity. Qed.

Lemma keeps_assert (b : bool) : keeps R (assert b).
Proof. destruct b; intros w; simpl; reflexivity. Qed.

Lemma keeps_bind {A B} (m : M A) (k : A -> M B) :
  keeps R m -> (forall a, keeps R (k a)) -> keeps R (bind m k).
Proof.
  intros Hm Hk w. unfold bind. specialize (Hm w).
  destruct (m w) as [[a|e|] w'] eqn:E; simpl in *; try exact Hm.
  etrans; [exact Hm|apply Hk].
Qed.

Lemma keeps_unwrap {A} (m : M A) : keeps R m -> keeps R (unwrap m).
Proof.
  intros Hm w. specialize (Hm w). unfold unwrap.
  destruct (m w) as [[a|e|] w']; exact Hm.
Qed.

Lemma keeps_catch {A} (m : M A) : keeps R m -> keeps R (catch m).
Proof.
  intros Hm w. specialize (Hm w). unfold catch.
  destruct (m w) as [[a|e|] w']; exact Hm.
Qed.

Lemma keeps_emit ev : (forall w, R w (tick w ev)) -> keeps R (emit ev).
Proof. intros H w. apply H. Qed.

Lemma keeps_assert_bind {A} (b : bool) (m : M A) :
  (b = true -> keeps R m) -> keeps R (assert b;; m).
Proof.
  intros H w. destruct b.
  - apply keeps_bind; [apply keeps_ret|]. intros []. apply H. reflexivity.
  - simpl. reflexivity.
Qed.

End Keeps.

(** The filesystem only loses entries. *)
Definition fs_shrinks (w w' : world) : Prop := w_fs w' ⊆ w_fs w.

Global Instance fs_shrinks_preorder : PreOrder fs_shrinks.
Proof.
  split; unfold fs_shrinks; [intros w; reflexivity|].
  intros w1 w2 w3 H12 H23. etrans; eauto.
Qed.

(** The trace grows by events satisfying [Q]. *)
Definition trace_grows (Q : event -> Prop) (w w' : world) : Prop :=
  exists ev, w_trace w' = w_trace w ++ ev /\ Forall Q ev.

Global Instance trace_grows_preorder Q : PreOrder (trace_grows Q).
Proof.
  split.
  - intros w. exists []. rewrite app_nil_r. split; [done|constructor].
  - intros w1 w2 w3 [ev1 [H1 F1]] [ev2 [H2 F2]]. exists (ev1 ++ ev2).
    rewrite H2, H1, app_assoc. split; [done|]. apply Forall_app. done.
Qed.

(** Every directory stays. *)
Definition dirs_stay (w w' : world) : Prop :=
  forall k, w_fs w !! k = Some NDir -> w_fs w' !! k = Some NDir.

Global Instance dirs_stay_preorder : PreOrder dirs_stay.
Proof. split; unfold dirs_stay; [intros w k; done|]. intros w1 w2 w3 H12 H23 k Hk. auto. Qed.

Section Primitives.

Lemma remove_file_shrinks p : keeps fs_shrinks (remove_file p).
Proof.
  intros w. rewrite remove_file_eq. unfold fs_shrinks.
  destruct (unlink_target _ _); simpl; [apply delete_subseteq|reflexivity].
Qed.

Lemma remove_dir_shrinks p : keeps fs_shrinks (remove_dir p).
Proof.
  intros w. rewrite remove_dir_eq. unfold fs_shrinks.
  destruct (rmdir_target _ _); simpl; [apply delete_subseteq|reflexivity].
Qed.

Lemma canonicalize_trace p w :
  w_trace (snd (canonicalize p w)) = w_trace w ++ [ECanonicalize p] /\
  w_fs (snd (canonicalize p w)) = w_fs w.
Proof. rewrite canonicalize_eq. destruct (resolve_path _ _); split; reflexivity. Qed.

Lemma canonicalize_shrinks p : keeps fs_shrinks (canonicalize p).
Proof. intros w. unfold fs_shrinks. rewrite (proj2 (canonicalize_trace p w)). reflexivity. Qed.

Lemma remove_file_trace p w :
  w_trace (snd (remove_file p w)) = w_trace w ++ [EUnlink p].
Proof. rewrite remove_file_eq. destruct (unlink_target _ _); reflexivity. Qed.

Lemma remove_dir_trace p w :
  w_trace (snd (remove_dir p w)) = w_trace w ++ [ERmdir p].
Proof. rewrite remove_dir_eq. destruct (rmdir_target _ _); reflexivity. Qed.

Lemma remove_file_grows (Q : event -> Prop) p :
  Q (EUnlink p) -> keeps (trace_grows Q) (remove_file p).
Proof. intros HQ w. exists [EUnlink p]. rewrite remove_file_trace. auto. Qed.

Lemma remove_dir_grows (Q : event -> Prop) p :
  Q (ERmdir p) -> keeps (trace_grows Q) (remove_dir p).
Proof. intros HQ w. exists [ERmdir p]. rewrite remove_dir_trace. auto. Qed.

Lemma canonicalize_grows (Q : event -> Prop) p :
  Q (ECanonicalize p) -> keeps (trace_grows Q) (canonicalize p).
Proof.
  intros HQ w. exists [ECanonicalize p]. rewrite (proj1 (canonicalize_trace p w)). auto.
Qed.

Lemma remove_file_dirs_stay p : keeps dirs_stay (remove_file p).
Proof.
  intros w. rewrite remove_file_eq. unfold dirs_stay.
  destruct (unlink_target _ _) as [k|e] eqn:E; [|simpl; auto].
  apply unlink_target_spec in E as (nd & Hk & Hnd & _).
  simpl. intros k' Hk'. destruct (decide (k' = k)) as [->|Hne]; [congruence|].
  rewrite lookup_delete_ne by congruence. exact Hk'.
Qed.

Lemma canonicalize_dirs_stay p : keeps dirs_stay (canonicalize p).
Proof. intros w k Hk. rewrite (proj2 (canonicalize_trace p w)). exact Hk. Qed.

End Primitives.

Create HintDb keeps.
Global Hint Resolve keeps_ret keeps_panic keeps_assert keeps_unwrap keeps_catch
  remove_file_shrinks remove_dir_shrinks canonicalize_shrinks
  remove_file_dirs_stay canonicalize_dirs_stay : keeps.

(** A location the walk can stand on: it exists and every proper prefix
    is a directory. *)
Definition placed (fs : gmap (list string) node) (k : list string) : Prop :=
  node_at fs k <> None /\ forall i, i < length k -> node_at fs (take i k) = Some NDir.

Lemma placed_root fs : placed fs [].
Proof. split; [discriminate|]. intros i Hi. simpl in Hi. lia. Qed.

Lemma node_at_app_last fs cur s : node_at fs (cur ++ [s]) = fs !! (cur ++ [s]).
Proof. destruct cur; reflexivity. Qed.

Lemma is_dir_true fs k : is_dir fs k = true -> node_at fs k = Some NDir.
Proof. unfold is_dir. destruct (node_at fs k) as [[]|]; congruence. Qed.

Lemma placed_child fs cur s nd :
  placed fs cur -> is_dir fs cur = true -> fs !! (cur ++ [s]) = Some nd ->
  placed fs (cur ++ [s]).
Proof.
  intros [_ Hp] Hd Hs. split; [rewrite node_at_app_last; congruence|].
  intros i Hi. rewrite length_app in Hi. simpl in Hi.
  destruct (decide (i = length cur)) as [->|Hne].
  - rewrite take_app_length. apply is_dir_true, Hd.
  - rewrite take_app_le by lia. apply Hp. lia.
Qed.

Lemma placed_parent fs cur : placed fs cur -> placed fs (removelast cur).
Proof.
  intros [Hn Hp]. destruct cur as [|x cur'] using rev_ind; [apply placed_root|].
  rewrite removelast_last. split.
  - pose proof (Hp (length cur')) as H. rewrite take_app_length in H.
    rewrite H by (rewrite length_app; simpl; lia). discriminate.
  - intros i Hi. pose proof (Hp i) as H. rewrite take_app_le in H by lia.
    apply H. rewrite length_app. simpl. lia.
Qed.

Lemma placed_removelast_dir fs cur :
  placed fs cur -> is_dir fs cur = true -> node_at fs (removelast cur) = Some NDir.
Proof.
  intros [_ Hp] Hd. destruct cur as [|x cur'] using rev_ind; [reflexivity|].
  rewrite removelast_last. pose proof (Hp (length cur')) as H.
  rewrite take_app_length in H. apply H. rewrite length_app. simpl. lia.
Qed.

Lemma walk_from_placed follow fs cur p k :
  (forall c t k', placed fs c -> follow c t = ROk k' -> placed fs k') ->
  placed fs cur -> walk_from follow fs cur p = ROk k -> placed fs k.
Proof.
  intros Hf. revert cur. induction p as [|c p IH]; intros cur Hc H; simpl in H.
  - injection H as <-. exact Hc.
  - destruct c as [| | |s].
    + eapply IH; [apply placed_root|exact H].
    + destruct (is_dir fs cur); [|discriminate]. eapply IH; eauto.
    + destruct (is_dir fs cur); [|discriminate]. eapply IH; [apply placed_parent, Hc|exact H].
    + destruct (is_dir fs cur) eqn:Hd; [|discriminate].
      destruct (fs !! (cur ++ [s])) as [nd|] eqn:Hs; [|discriminate].
      destruct nd as [| |t].
      * eapply IH; [eapply placed_child; eauto|exact H].
      * eapply IH; [eapply placed_child; eauto|exact H].
      * destruct (follow cur t) as [k'|e] eqn:Ht; [|discriminate].
        eapply IH; [eapply Hf; eauto|exact H].
Qed.

Lemma resolve_placed n fs cur p k :
  placed fs cur -> resolve n fs cur p = ROk k -> placed fs k.
Proof.
  revert cur p k. induction n as [|n IH]; intros cur p k; simpl;
    apply walk_from_placed; intros c t k' Hc Ht; [discriminate|].
  destruct (String.eqb (cstr t) ""); [discriminate|]. eapply IH; eauto.
Qed.

Lemma walk_placed fs p k : walk fs p = ROk k -> placed fs k.
Proof. apply resolve_placed, placed_root. Qed.

Lemma walk_from_app follow fs cur p q :
  walk_from follow fs cur (p ++ q) =
  match walk_from follow fs cur p with ROk k => walk_from follow fs k q | RErr e => RErr e end.
Proof.
  revert cur. induction p as [|c p IH]; intros cur; [reflexivity|].
  destruct c as [| | |s]; simpl; [apply IH|..].
  - destruct (is_dir fs cur); [apply IH|reflexivity].
  - destruct (is_dir fs cur); [apply IH|reflexivity].
  - destruct (is_dir fs cur); [|reflexivity].
    destruct (fs !! (cur ++ [s])) as [[| |t]|]; try apply IH; try reflexivity.
    destruct (follow cur t); [apply IH|reflexivity].
Qed.

Lemma resolve_app n fs cur p q :
  resolve n fs cur (p ++ q) =
  match resolve n fs cur p with ROk k => resolve n fs k q | RErr e => RErr e end.
Proof. destruct n; simpl; apply walk_from_app. Qed.

Lemma resolve_nil n fs cur : resolve n fs cur [] = ROk cur.
Proof. destruct n; reflexivity. Qed.

Lemma resolve_curdir n fs cur :
  resolve n fs cur [CurDir] = if is_dir fs cur then ROk cur else RErr ENOTDIR.
Proof. destruct n; simpl; destruct (is_dir fs cur); reflexivity. Qed.

Lemma resolve_name n fs cur s nd :
  is_dir fs cur = true -> fs !! (cur ++ [s]) = Some nd -> (forall t, nd <> NSymlink t) ->
  resolve n fs cur [Normal s] = ROk (cur ++ [s]).
Proof.
  intros Hd Hs Hn. destruct n; simpl; rewrite Hd, Hs;
    (destruct nd as [| |t]; [reflexivity|reflexivity|exfalso; exact (Hn t eq_refl)]).
Qed.

(** A walk whose last step is not a name ends on a directory. *)
Lemma resolve_last_dir n fs cur p c k :
  placed fs cur -> (forall s, c <> Normal s) ->
  resolve n fs cur (p ++ [c]) = ROk k -> node_at fs k = Some NDir.
Proof.
  intros Hc Hn H. rewrite resolve_app in H.
  destruct (resolve n fs cur p) as [k0|e] eqn:E; [|discriminate].
  pose proof (resolve_placed _ _ _ _ _ Hc E) as Hp.
  destruct c as [| | |s]; [| | |exfalso; exact (Hn s eq_refl)];
    destruct n; simpl in H.
  1, 2: injection H as <-; reflexivity.
  1, 2: destruct (is_dir fs k0) eqn:D; [|discriminate]; injection H as <-;
        apply is_dir_true, D.
  1, 2: destruct (is_dir fs k0) eqn:D; [|discriminate]; injection H as <-;
        apply placed_removelast_dir; assumption.
Qed.

Lemma walk_nonname_dir fs p k :
  walk fs p = ROk k -> (forall s, last p <> Some (Normal s)) -> node_at fs k = Some NDir.
Proof.
  intros H Hl. destruct (last p) as [c|] eqn:E.
  - assert (Hc : forall s, c <> Normal s) by (intros s Hs; subst c; exact (Hl s eq_refl)).
    apply last_Some in E as [p' ->].
    exact (resolve_last_dir _ _ _ _ _ _ (placed_root _) Hc H).
  - apply last_None in E. subst p. unfold walk in H. rewrite resolve_nil in H.
    injection H as <-. reflexivity.
Qed.

(** What [lstat] reports as a non-directory is the entry named by the
    last component, in the directory the rest of the path leads to. *)
Lemma lookup_entry_nondir fs s k nd :
  lookup_entry fs s = ROk (k, nd) -> nd <> NDir ->
  has_nul s = false /\ String.eqb s "" = false /\
  exists n d, last (kcomps s) = Some (Normal n) /\ ends_in_slash s = false /\
              parent_walk fs (kcomps s) = ROk d /\ k = d ++ [n] /\ fs !! k = Some nd.
Proof.
  intros H Hnd. unfold lookup_entry in H. cbv zeta in H.
  destruct (has_nul s); [discriminate|]. destruct (String.eqb s ""); [discriminate|].
  split; [reflexivity|]. split; [reflexivity|].
  assert (Hfollow : forall r, r = (match walk fs (kwalk_path s) with
      | ROk k => match node_at fs k with Some nd => ROk (k, nd) | None => RErr ENOENT end
      | RErr e => RErr e end) ->
      (forall s', last (kwalk_path s) <> Some (Normal s')) -> r <> ROk (k, nd)).
  { intros r -> Hl. destruct (walk fs (kwalk_path s)) as [k'|e] eqn:W; [|discriminate].
    rewrite (walk_nonname_dir _ _ _ W Hl). intros Heq. injection Heq as _ <-. congruence. }
  destruct (last (kcomps s)) as [c|] eqn:L.
  - destruct c as [| | |n].
    1-3: exfalso; eapply Hfollow; [reflexivity| |exact H]; intros s'; unfold kwalk_path;
         destruct (ends_in_slash s); [rewrite last_snoc; discriminate|rewrite app_nil_r, L; discriminate].
    destruct (ends_in_slash s) eqn:ES.
    + exfalso; eapply Hfollow; [reflexivity| |exact H]; intros s'; unfold kwalk_path.
      rewrite ES, last_snoc; discriminate.
    + destruct (parent_walk fs (kcomps s)) as [d|e]; [|discriminate].
      destruct (fs !! (d ++ [n])) eqn:F; [|discriminate]. injection H as <- <-.
      exists n, d. auto.
  - exfalso. eapply Hfollow; [reflexivity| |exact H]. intros s'. unfold kwalk_path.
    destruct (ends_in_slash s); [rewrite last_snoc; discriminate|rewrite app_nil_r, L; discriminate].
Qed.

(** A symlink that [lstat] reports is what [unlink] removes. *)
Lemma lookup_symlink_unlink fs s k t :
  lookup_entry fs s = ROk (k, NSymlink t) -> unlink_target fs s = ROk k.
Proof.
  intros H. destruct (lookup_entry_nondir _ _ _ _ H ltac:(discriminate))
    as (Hn & He & n & d & L & ES & P & -> & F).
  unfold unlink_target. rewrite Hn, He, P, L, F, ES. reflexivity.
Qed.

(** What [rmdir] removes, [lstat] reports as that directory. *)
Lemma rmdir_lookup fs s k :
  rmdir_target fs s = ROk k -> lookup_entry fs s = ROk (k, NDir).
Proof.
  unfold rmdir_target. destruct (has_nul s) eqn:Hn; [discriminate|].
  destruct (String.eqb s "") eqn:He; [discriminate|].
  destruct (last (kcomps s)) as [[| | |n]|] eqn:L; try discriminate;
    destruct (parent_walk fs (kcomps s)) as [d|e] eqn:P; try discriminate.
  destruct (fs !! (d ++ [n])) as [[| |t]|] eqn:F; try discriminate.
  destruct (has_children fs (d ++ [n])); [discriminate|]. intros H; injection H as <-.
  unfold lookup_entry. cbv zeta. rewrite Hn, He, L.
  destruct (ends_in_slash s) eqn:ES; [|rewrite P, F; reflexivity].
  unfold parent_walk in P.
  destruct (walk fs (removelast (kcomps s))) as [d'|e] eqn:W; [|discriminate].
  destruct (is_dir fs d') eqn:D; [|discriminate]. injection P as <-.
  apply last_Some in L as [p' Hp']. rewrite Hp', removelast_last in W.
  unfold kwalk_path, walk. rewrite ES, Hp', resolve_app, resolve_app.
  unfold walk in W. rewrite W.
  rewrite (resolve_name _ _ _ _ _ D F) by discriminate.
  rewrite resolve_curdir. unfold is_dir. rewrite node_at_app_last, F.
  rewrite node_at_app_last, F. reflexivity.
Qed.

Lemma is_dir_weaken fs fs' k : fs' ⊆ fs -> is_dir fs' k = true -> is_dir fs k = true.
Proof.
  intros Hsub H. apply is_dir_true in H. unfold is_dir.
  destruct k; [reflexivity|]. simpl in *. rewrite (lookup_weaken fs' fs _ _ H Hsub). reflexivity.
Qed.

(** Removing entries never lets a walk reach a location it did not reach
    before. *)
Lemma walk_from_weaken follow follow' fs fs' cur p k :
  fs' ⊆ fs ->
  (forall c t k', follow' c t = ROk k' -> follow c t = ROk k') ->
  walk_from follow' fs' cur p = ROk k -> walk_from follow fs cur p = ROk k.
Proof.
  intros Hsub Hf. revert cur. induction p as [|c p IH]; intros cur H; simpl in *.
  - exact H.
  - destruct c as [| | |s].
    + apply IH, H.
    + destruct (is_dir fs' cur) eqn:Hd; [|discriminate].
      rewrite (is_dir_weaken fs fs' cur Hsub Hd). apply IH, H.
    + destruct (is_dir fs' cur) eqn:Hd; [|discriminate].
      rewrite (is_dir_weaken fs fs' cur Hsub Hd). apply IH, H.
    + destruct (is_dir fs' cur) eqn:Hd; [|discriminate].
      rewrite (is_dir_weaken fs fs' cur Hsub Hd).
      destruct (fs' !! (cur ++ [s])) as [nd|] eqn:Hs; [|discriminate].
      rewrite (lookup_weaken fs' fs _ _ Hs Hsub).
      destruct nd as [| |t]; [apply IH, H|apply IH, H|].
      destruct (follow' cur t) as [k'|e] eqn:Ht; [|discriminate].
      rewrite (Hf _ _ _ Ht). apply IH, H.
Qed.

Lemma resolve_weaken n fs fs' cur p k :
  fs' ⊆ fs -> resolve n fs' cur p = ROk k -> resolve n fs cur p = ROk k.
Proof.
  intros Hsub. revert cur p k. induction n as [|n IH]; intros cur p k; simpl;
    apply walk_from_weaken; auto.
  intros c t k'. destruct (String.eqb (cstr t) ""); [discriminate|]. apply IH.
Qed.

Lemma walk_weaken fs fs' p k : fs' ⊆ fs -> walk fs' p = ROk k -> walk fs p = ROk k.
Proof. apply resolve_weaken. Qed.

Lemma node_at_weaken fs fs' k nd : fs' ⊆ fs -> node_at fs' k = Some nd -> node_at fs k = Some nd.
Proof. intros Hsub H. destruct k; [exact H|]. simpl in *. eapply lookup_weaken; eauto. Qed.

Lemma resolve_path_weaken fs fs' s k :
  fs' ⊆ fs -> resolve_path fs' s = ROk k -> resolve_path fs s = ROk k.
Proof.
  intros Hsub. unfold resolve_path.
  destruct (has_nul s); [discriminate|]. destruct (String.eqb s ""); [discriminate|].
  destruct (walk fs' (kwalk_path s)) as [k'|e] eqn:W; [|discriminate].
  rewrite (walk_weaken _ _ _ _ Hsub W).
  destruct (node_at fs' k') as [nd|] eqn:N; [|discriminate].
  rewrite (node_at_weaken _ _ _ _ Hsub N). exact id.
Qed.

Lemma resolve_path_node fs s k : resolve_path fs s = ROk k -> node_at fs k <> None.
Proof.
  unfold resolve_path.
  destruct (has_nul s); [discriminate|]. destruct (String.eqb s ""); [discriminate|].
  destruct (walk fs (kwalk_path s)) as [k'|e]; [|discriminate].
  destruct (node_at fs k') eqn:N; [|discriminate]. intros H; injection H as <-. congruence.
Qed.

Lemma parent_walk_weaken fs fs' p d :
  fs' ⊆ fs -> parent_walk fs' p = ROk d -> parent_walk fs p = ROk d.
Proof.
  intros Hsub. unfold parent_walk.
  destruct (walk fs' (removelast p)) as [d'|e] eqn:W; [|discriminate].
  rewrite (walk_weaken _ _ _ _ Hsub W).
  destruct (is_dir fs' d') eqn:D; [|discriminate]. rewrite (is_dir_weaken _ _ _ Hsub D). exact id.
Qed.

Lemma lookup_entry_weaken fs fs' s k nd :
  fs' ⊆ fs -> lookup_entry fs' s = ROk (k, nd) -> lookup_entry fs s = ROk (k, nd).
Proof.
  intros Hsub. unfold lookup_entry. cbv zeta.
  destruct (has_nul s); [discriminate|]. destruct (String.eqb s ""); [discriminate|].
  assert (Hf : (match walk fs' (kwalk_path s) with
      | ROk k => match node_at fs' k with Some nd => ROk (k, nd) | None => RErr ENOENT end
      | RErr e => RErr e end) = ROk (k, nd) ->
      (match walk fs (kwalk_path s) with
      | ROk k => match node_at fs k with Some nd => ROk (k, nd) | None => RErr ENOENT end
      | RErr e => RErr e end) = ROk (k, nd)).
  { destruct (walk fs' (kwalk_path s)) as [k'|e] eqn:W; [|discriminate].
    rewrite (walk_weaken _ _ _ _ Hsub W).
    destruct (node_at fs' k') as [nd'|] eqn:N; [|discriminate].
    rewrite (node_at_weaken _ _ _ _ Hsub N). exact id. }
  destruct (last (kcomps s)) as [[| | |n]|]; try exact Hf.
  destruct (ends_in_slash s); [exact Hf|].
  destruct (parent_walk fs' (kcomps s)) as [d|e] eqn:P; [|discriminate].
  rewrite (parent_walk_weaken _ _ _ _ Hsub P).
  destruct (fs' !! (d ++ [n])) as [nd'|] eqn:F; [|discriminate].
  rewrite (lookup_weaken _ _ _ _ F Hsub). exact id.
Qed.

(** ** Strings *)

Fixpoint has_slash (s : string) : bool :=
  match s with
  | EmptyString => false
  | String c s' => Ascii.eqb c slash || has_slash s'
  end.

(** A name the kernel stores in a directory. *)
Definition valid_name (n : string) : bool :=
  negb (String.eqb n "") && negb (String.eqb n ".") && negb (String.eqb n "..")
  && negb (has_slash n) && negb (has_nul n).

Lemma str_app_nil_r (s : string) : String.append s "" = s.
Proof. induction s as [|c s IH]; simpl; [reflexivity|]. rewrite IH. reflexivity. Qed.

Lemma str_app_assoc (a b c : string) :
  String.append (String.append a b) c = String.append a (String.append b c).
Proof. induction a as [|x a IH]; simpl; [reflexivity|]. rewrite IH. reflexivity. Qed.

Lemma str_length_app (a b : string) :
  String.length (String.append a b) = String.length a + String.length b.
Proof. induction a as [|x a IH]; simpl; [reflexivity|]. rewrite IH. reflexivity. Qed.

Lemma has_slash_app a b : has_slash (String.append a b) = has_slash a || has_slash b.
Proof. induction a as [|x a IH]; simpl; [reflexivity|]. rewrite IH. apply orb_assoc. Qed.

Lemma has_nul_app a b : has_nul (String.append a b) = has_nul a || has_nul b.
Proof. induction a as [|x a IH]; simpl; [reflexivity|]. rewrite IH. apply orb_assoc. Qed.

Lemma split_slash_aux_cons s cur :
  exists first more, split_slash_aux s cur = String.append cur first :: more.
Proof.
  revert cur. induction s as [|c s IH]; intros cur; simpl.
  - exists "", []. rewrite str_app_nil_r. reflexivity.
  - destruct (Ascii.eqb c slash).
    + exists "", (split_slash_aux s ""). rewrite str_app_nil_r. reflexivity.
    + destruct (IH (String.append cur (String c ""))) as [first [more ->]].
      exists (String c first), more. rewrite str_app_assoc. reflexivity.
Qed.

Lemma split_slash_aux_segs s cur :
  has_slash cur = false -> has_nul s = false -> has_nul cur = false ->
  Forall (fun seg => has_slash seg = false /\ has_nul seg = false) (split_slash_aux s cur).
Proof.
  revert cur. induction s as [|c s IH]; intros cur H1 H2 H3; simpl in *.
  - constructor; [auto|constructor].
  - apply orb_false_iff in H2 as [Hc Hs].
    destruct (Ascii.eqb c slash) eqn:E.
    + constructor; [auto|]. apply IH; auto.
    + apply IH; [rewrite has_slash_app; simpl; rewrite E, H1; reflexivity|exact Hs|].
      rewrite has_nul_app. simpl. rewrite Hc, H3. reflexivity.
Qed.

Lemma split_slash_aux_noslash x cur :
  has_slash x = false -> split_slash_aux x cur = [String.append cur x].
Proof.
  revert cur. induction x as [|c x IH]; intros cur H; simpl in *.
  - rewrite str_app_nil_r. reflexivity.
  - apply orb_false_iff in H as [Hc Hx]. rewrite Hc, IH by exact Hx.
    rewrite str_app_assoc. reflexivity.
Qed.

Lemma split_slash_aux_app x rest cur :
  has_slash x = false ->
  split_slash_aux (String.append x rest) cur = split_slash_aux rest (String.append cur x).
Proof.
  revert cur. induction x as [|c x IH]; intros cur H; simpl in *.
  - rewrite str_app_nil_r. reflexivity.
  - apply orb_false_iff in H as [Hc Hx]. rewrite Hc, IH by exact Hx.
    rewrite str_app_assoc. reflexivity.
Qed.

Lemma split_concat_aux (L : list string) cur :
  L <> [] -> Forall (fun x => has_slash x = false) L ->
  split_slash_aux (String.concat "/" L) cur =
  match L with x :: L' => String.append cur x :: L' | [] => [] end.
Proof.
  revert cur. induction L as [|x L IH]; intros cur Hne HF; [congruence|].
  inversion HF as [|? ? Hx HF']; subst.
  destruct L as [|y L].
  - simpl. apply split_slash_aux_noslash, Hx.
  - change (String.concat "/" (x :: y :: L)) with
      (String.append x (String slash (String.concat "/" (y :: L)))).
    rewrite split_slash_aux_app by exact Hx. simpl.
    f_equal. rewrite IH by (discriminate || exact HF'). reflexivity.
Qed.

Lemma split_concat (L : list string) :
  L <> [] -> Forall (fun x => has_slash x = false) L ->
  split_slash (String.concat "/" L) = L.
Proof.
  intros Hne HF. unfold split_slash. rewrite split_concat_aux by assumption.
  destruct L; [congruence|]. reflexivity.
Qed.

Lemma concat_split_aux s cur :
  String.concat "/" (split_slash_aux s cur) = String.append cur s.
Proof.
  revert cur. induction s as [|c s IH]; intros cur; simpl.
  - rewrite str_app_nil_r. reflexivity.
  - destruct (Ascii.eqb c slash) eqn:E.
    + apply Ascii.eqb_eq in E. subst c.
      destruct (split_slash_aux_cons s "") as [first [more Hs]].
      rewrite Hs. change (String.concat "/" (cur :: String.append "" first :: more)) with
        (String.append cur (String slash (String.concat "/" (String.append "" first :: more)))).
      rewrite <- Hs, IH. reflexivity.
    + rewrite IH, str_app_assoc. reflexivity.
Qed.

Lemma concat_split s : String.concat "/" (split_slash s) = s.
Proof. apply concat_split_aux. Qed.

Lemma concat_app (P Q : list string) :
  P <> [] -> Q <> [] ->
  String.concat "/" (P ++ Q) =
  String.append (String.concat "/" P) (String slash (String.concat "/" Q)).
Proof.
  intros HP HQ. induction P as [|x P IH]; [congruence|].
  destruct P as [|y P].
  - destruct Q; [congruence|]. reflexivity.
  - change (String.concat "/" ((x :: y :: P) ++ Q)) with
      (String.append x (String slash (String.concat "/" ((y :: P) ++ Q)))).
    rewrite IH by discriminate.
    change (String.concat "/" (x :: y :: P)) with
      (String.append x (String slash (String.concat "/" (y :: P)))).
    rewrite str_app_assoc. reflexivity.
Qed.

Lemma concat_length_ge (L : list string) x :
  x ∈ L -> String.length x <= String.length (String.concat "/" L).
Proof.
  induction L as [|y L IH]; intros Hx; [inversion Hx|].
  destruct L as [|z L].
  - apply list_elem_of_singleton in Hx. subst. simpl. lia.
  - change (String.concat "/" (y :: z :: L)) with
      (String.append y (String slash (String.concat "/" (z :: L)))).
    rewrite str_length_app. cbn [String.length].
    apply elem_of_cons in Hx as [->|Hx]; [lia|]. specialize (IH Hx). lia.
Qed.

(** ** Locations as [realpath] renders them *)

Lemma ends_in_slash_app a b :
  b <> ""%string -> ends_in_slash (String.append a b) = ends_in_slash b.
Proof.
  intros Hb. induction a as [|c a IH]; [reflexivity|]. simpl.
  destruct (String.append a b) eqn:E.
  - destruct a; destruct b; simpl in E; congruence.
  - exact IH.
Qed.

Lemma ends_in_slash_noslash x : has_slash x = false -> ends_in_slash x = false.
Proof.
  induction x as [|c x IH]; [reflexivity|]. simpl. intros H.
  apply orb_false_iff in H as [Hc Hx]. destruct x; [exact Hc|]. apply IH, Hx.
Qed.

Lemma ends_in_slash_cons c s : s <> ""%string -> ends_in_slash (String c s) = ends_in_slash s.
Proof. destruct s; [congruence|reflexivity]. Qed.

Lemma concat_ends_in_slash (L : list string) :
  L <> [] -> Forall (fun x => valid_name x = true) L ->
  ends_in_slash (String.concat "/" L) = false.
Proof.
  intros Hne HF. induction L as [|x L IH]; [congruence|].
  inversion HF as [|? ? Hx HF']; subst.
  destruct L as [|y L].
  - simpl. apply ends_in_slash_noslash. unfold valid_name in Hx.
    destruct (has_slash x); [|reflexivity]. rewrite !andb_false_r in Hx. discriminate.
  - change (String.concat "/" (x :: y :: L)) with
      (String.append x (String slash (String.concat "/" (y :: L)))).
    rewrite ends_in_slash_app by discriminate.
    assert (Hy : String.concat "/" (y :: L) <> ""%string).
    { intros E. pose proof (concat_length_ge (y :: L) y ltac:(left)) as Hl.
      rewrite E in Hl. inversion HF' as [|? ? Hy' _]; subst. unfold valid_name in Hy'.
      destruct y; [discriminate|simpl in Hl; lia]. }
    rewrite ends_in_slash_cons by exact Hy. apply IH; [discriminate|exact HF'].
Qed.

Lemma valid_name_parts n :
  valid_name n = true ->
  String.eqb n "" = false /\ String.eqb n "." = false /\ String.eqb n ".." = false /\
  has_slash n = false /\ has_nul n = false.
Proof.
  unfold valid_name. intros H.
  repeat match goal with H : (_ && _) = true |- _ => apply andb_prop in H as [? ?] end.
  repeat match goal with H : negb _ = true |- _ => apply negb_true_iff in H end.
  auto.
Qed.

Lemma kernel_components_valid (L : list string) :
  Forall (fun x => valid_name x = true) L -> kernel_components L = map Normal L.
Proof.
  induction 1 as [|x L Hx _ IH]; [reflexivity|]. simpl.
  destruct (valid_name_parts _ Hx) as (H1 & H2 & H3 & _). rewrite H1, H2, H3, IH. reflexivity.
Qed.

Lemma normal_components_valid (L : list string) :
  Forall (fun x => valid_name x = true) L -> normal_components L = map Normal L.
Proof.
  induction 1 as [|x L Hx _ IH]; [reflexivity|]. simpl.
  destruct (valid_name_parts _ Hx) as (H1 & H2 & H3 & _). rewrite H1, H2, H3, IH. reflexivity.
Qed.

Lemma has_nul_concat (L : list string) :
  Forall (fun x => has_nul x = false) L -> has_nul (String.concat "/" L) = false.
Proof.
  induction 1 as [|x L Hx HF IH]; [reflexivity|].
  destruct L as [|y L]; [exact Hx|].
  change (String.concat "/" (x :: y :: L)) with
    (String.append x (String slash (String.concat "/" (y :: L)))).
  rewrite has_nul_app. cbn [has_nul]. rewrite Hx, IH. reflexivity.
Qed.

Section Render.

Variable k : list string.
Hypothesis Hvalid : Forall (fun x => valid_name x = true) k.
Hypothesis Hne : k <> [].

Lemma render_split : split_slash (render k) = ""%string :: k.
Proof.
  unfold render. destruct k as [|x k'] eqn:Ek; [congruence|].
  apply split_concat; [discriminate|]. constructor; [reflexivity|].
  eapply Forall_impl; [exact Hvalid|]. intros x' Hx'. apply valid_name_parts in Hx'. tauto.
Qed.

Lemma render_cons : render k = String slash (String.concat "/" k).
Proof. unfold render. destruct k as [|x [|y k']]; [congruence|reflexivity|reflexivity]. Qed.

Lemma render_kcomps : kcomps (render k) = RootDir :: map Normal k.
Proof.
  unfold kcomps. rewrite render_split. rewrite render_cons at 1. simpl.
  rewrite kernel_components_valid by exact Hvalid. reflexivity.
Qed.

Lemma render_components : components (render k) = RootDir :: map Normal k.
Proof.
  unfold components. rewrite render_split. rewrite render_cons. simpl.
  rewrite normal_components_valid by exact Hvalid. reflexivity.
Qed.

Lemma render_ends_in_slash : ends_in_slash (render k) = false.
Proof.
  rewrite render_cons. rewrite ends_in_slash_cons; [apply concat_ends_in_slash; assumption|].
  intros E. destruct k as [|x k']; [congruence|]. inversion Hvalid as [|? ? Hx _]; subst.
  pose proof (concat_length_ge (x :: k') x ltac:(left)) as Hl. rewrite E in Hl.
  apply valid_name_parts in Hx as [Hx _]. destruct x; [discriminate|simpl in Hl; lia].
Qed.

Lemma render_has_nul : has_nul (render k) = false.
Proof.
  rewrite render_cons. simpl. apply has_nul_concat.
  eapply Forall_impl; [exact Hvalid|]. intros x Hx. apply valid_name_parts in Hx. tauto.
Qed.

End Render.

Lemma walk_from_names follow fs cur ks :
  (forall i, i <= length ks -> node_at fs (cur ++ take i ks) = Some NDir) ->
  walk_from follow fs cur (map Normal ks) = ROk (cur ++ ks).
Proof.
  revert cur. induction ks as [|s ks IH]; intros cur H; simpl.
  - rewrite app_nil_r. reflexivity.
  - pose proof (H 0 ltac:(lia)) as H0. rewrite app_nil_r in H0.
    unfold is_dir. rewrite H0.
    pose proof (H 1 ltac:(simpl; lia)) as H1. simpl in H1.
    rewrite node_at_app_last in H1. rewrite H1.
    replace (cur ++ s :: ks) with ((cur ++ [s]) ++ ks) by (rewrite <- app_assoc; reflexivity).
    apply IH. intros i Hi. rewrite <- app_assoc. apply (H (S i)). simpl. lia.
Qed.

Lemma resolve_names n fs ks :
  (forall i, i <= length ks -> node_at fs (take i ks) = Some NDir) ->
  resolve n fs [] (RootDir :: map Normal ks) = ROk ks.
Proof.
  intros H. destruct n; simpl; apply (walk_from_names _ _ [] ks); exact H.
Qed.

(** The parent of a placed location, walked name by name from "/". *)
Lemma parent_walk_render fs k x :
  placed fs (k ++ [x]) -> Forall (fun y => valid_name y = true) (k ++ [x]) ->
  parent_walk fs (kcomps (render (k ++ [x]))) = ROk k.
Proof.
  intros [_ Hp] Hv. rewrite render_kcomps by (done || (destruct k; discriminate)).
  unfold parent_walk, walk. rewrite map_app, app_comm_cons.
  change (map Normal [x]) with [Normal x]. rewrite removelast_last.
  rewrite length_app in Hp. simpl in Hp.
  rewrite resolve_names.
  - unfold is_dir. pose proof (Hp (length k) ltac:(lia)) as Hd.
    rewrite take_app_length in Hd. rewrite Hd. reflexivity.
  - intros i Hi. rewrite <- (take_app_le k [x]) by lia. apply Hp. lia.
Qed.

Lemma render_last k x :
  Forall (fun y => valid_name y = true) (k ++ [x]) ->
  last (kcomps (render (k ++ [x]))) = Some (Normal x).
Proof.
  intros Hv. rewrite render_kcomps by (done || (destruct k; discriminate)).
  rewrite map_app, app_comm_cons. change (map Normal [x]) with [Normal x].
  rewrite last_snoc. reflexivity.
Qed.

Lemma render_ne k : render k <> ""%string.
Proof. unfold render. destruct k as [|x [|y k']]; [discriminate| |]; simpl.
  - intros E. discriminate (f_equal String.length E).
  - discriminate.
Qed.

(** [unlink] of a canonical path removes the location it names. *)
Lemma unlink_render fs k :
  placed fs k -> Forall (fun y => valid_name y = true) k -> k <> [] ->
  unlink_target fs (render k) =
  match fs !! k with
  | Some NDir => RErr EISDIR
  | Some _ => ROk k
  | None => RErr ENOENT
  end.
Proof.
  intros Hp Hv Hne. destruct k as [|x k] using rev_ind; [congruence|]. clear IHk.
  unfold unlink_target.
  rewrite render_has_nul by assumption.
  assert (E : String.eqb (render (k ++ [x])) "" = false)
    by (apply String.eqb_neq, render_ne). rewrite E.
  rewrite parent_walk_render, render_last by assumption.
  rewrite render_ends_in_slash by assumption.
  destruct (fs !! (k ++ [x])) as [[| |t]|]; reflexivity.
Qed.

Lemma unlink_root fs : unlink_target fs "/" = RErr EISDIR.
Proof. unfold unlink_target, parent_walk, walk. cbn -[resolve]. rewrite resolve_nil. reflexivity. Qed.

(** ** The walk only reaches locations with valid names *)

Definition names_ok (p : path) : Prop :=
  forall n, Normal n ∈ p -> valid_name n = true.

Lemma kernel_components_names (L : list string) :
  Forall (fun seg => has_slash seg = false /\ has_nul seg = false) L ->
  names_ok (kernel_components L).
Proof.
  induction 1 as [|x L [Hs Hn] _ IH]; intros n Hin; [inversion Hin|]. simpl in Hin.
  destruct (String.eqb x "") eqn:E1; [apply IH, Hin|].
  destruct (String.eqb x ".") eqn:E2; [apply elem_of_cons in Hin as [Hin|Hin]; [discriminate|apply IH, Hin]|].
  destruct (String.eqb x "..") eqn:E3; [apply elem_of_cons in Hin as [Hin|Hin]; [discriminate|apply IH, Hin]|].
  apply elem_of_cons in Hin as [Hin|Hin]; [|apply IH, Hin].
  injection Hin as ->. unfold valid_name. rewrite E1, E2, E3, Hs, Hn. reflexivity.
Qed.

Lemma kwalk_path_names s : has_nul s = false -> names_ok (kwalk_path s).
Proof.
  intros Hs n Hin. unfold kwalk_path, kcomps in Hin.
  apply elem_of_app in Hin as [Hin|Hin].
  - apply elem_of_app in Hin as [Hin|Hin].
    + destruct (has_root s); [apply list_elem_of_singleton in Hin; discriminate|inversion Hin].
    + revert Hin. apply kernel_components_names, split_slash_aux_segs; auto.
  - destruct (ends_in_slash s); [apply list_elem_of_singleton in Hin; discriminate|inversion Hin].
Qed.

Lemma cstr_has_nul t : has_nul (cstr t) = false.
Proof.
  induction t as [|c t IH]; [reflexivity|]. simpl.
  destruct (Ascii.eqb c zero) eqn:E; [reflexivity|]. simpl. rewrite E, IH. reflexivity.
Qed.

Lemma Forall_removelast {A} (P : A -> Prop) (l : list A) : Forall P l -> Forall P (removelast l).
Proof.
  induction 1 as [|x l Hx _ IH]; [constructor|]. destruct l; [constructor|]. constructor; auto.
Qed.

Definition valid_loc (k : list string) : Prop := Forall (fun y => valid_name y = true) k.

Lemma walk_from_valid follow fs cur p k :
  (forall c t k', valid_loc c -> follow c t = ROk k' -> valid_loc k') ->
  valid_loc cur -> names_ok p -> walk_from follow fs cur p = ROk k -> valid_loc k.
Proof.
  intros Hf. revert cur. induction p as [|c p IH]; intros cur Hc Hp H; simpl in H.
  - injection H as <-. exact Hc.
  - assert (Hp' : names_ok p) by (intros n Hn; apply Hp; apply elem_of_cons; auto).
    destruct c as [| | |s].
    + eapply IH; [constructor|exact Hp'|exact H].
    + destruct (is_dir fs cur); [|discriminate]. exact (IH cur Hc Hp' H).
    + destruct (is_dir fs cur); [|discriminate].
      eapply IH; [apply Forall_removelast, Hc|exact Hp'|exact H].
    + assert (Hs : valid_loc (cur ++ [s])).
      { apply Forall_app. split; [exact Hc|]. constructor; [|constructor].
        apply Hp. apply elem_of_cons. auto. }
      destruct (is_dir fs cur); [|discriminate].
      destruct (fs !! (cur ++ [s])) as [[| |t]|]; try discriminate.
      * exact (IH _ Hs Hp' H).
      * exact (IH _ Hs Hp' H).
      * destruct (follow cur t) as [k'|e] eqn:Ht; [|discriminate].
        exact (IH _ (Hf _ _ _ Hc Ht) Hp' H).
Qed.

Lemma resolve_valid n fs cur p k :
  valid_loc cur -> names_ok p -> resolve n fs cur p = ROk k -> valid_loc k.
Proof.
  revert cur p k. induction n as [|n IH]; intros cur p k; simpl;
    apply walk_from_valid; intros c t k' Hc Ht; [discriminate|].
  destruct (String.eqb (cstr t) ""); [discriminate|].
  eapply IH; [exact Hc|apply kwalk_path_names, cstr_has_nul|exact Ht].
Qed.

Lemma resolve_path_valid fs s k : resolve_path fs s = ROk k -> valid_loc k.
Proof.
  unfold resolve_path. destruct (has_nul s) eqn:Hn; [discriminate|].
  destruct (String.eqb s ""); [discriminate|].
  destruct (walk fs (kwalk_path s)) as [k'|e] eqn:W; [|discriminate].
  destruct (node_at fs k'); [|discriminate]. intros H; injection H as <-.
  eapply resolve_valid; [constructor|apply kwalk_path_names, Hn|exact W].
Qed.

Lemma resolve_path_placed fs s k : resolve_path fs s = ROk k -> placed fs k.
Proof.
  unfold resolve_path. destruct (has_nul s); [discriminate|].
  destruct (String.eqb s ""); [discriminate|].
  destruct (walk fs (kwalk_path s)) as [k'|e] eqn:W; [|discriminate].
  destruct (node_at fs k'); [|discriminate]. intros H; injection H as <-.
  eapply walk_placed, W.
Qed.

(** [remove_file] of a path [canonicalize] returned. *)
Lemma unlink_resolved fs s k :
  resolve_path fs s = ROk k ->
  unlink_target fs (render k) =
  match k with
  | [] => RErr EISDIR
  | _ => match fs !! k with
         | Some NDir => RErr EISDIR
         | Some _ => ROk k
         | None => RErr ENOENT
         end
  end.
Proof.
  intros H. pose proof (resolve_path_placed _ _ _ H) as Hp.
  pose proof (resolve_path_valid _ _ _ H) as Hv.
  destruct k as [|x k']; [apply unlink_root|].
  apply unlink_render; [exact Hp|exact Hv|discriminate].
Qed.

Lemma render_components_resolved fs s k :
  resolve_path fs s = ROk k -> components (render k) = RootDir :: map Normal k.
Proof.
  intros H. pose proof (resolve_path_valid _ _ _ H) as Hv.
  destruct k as [|x k']; [reflexivity|].
  apply render_components; [exact Hv|discriminate].
Qed.

(** ** [Path::components] through the segments of the string *)

Definition root_segs (L : list string) : bool :=
  match L with EmptyString :: _ :: _ => true | _ => false end.

Definition comps_of_segs (L : list string) : path :=
  (if root_segs L then [RootDir] else [])
  ++ (if root_segs L then [] else if String.eqb (hd ""%string L) "." then [CurDir] else [])
  ++ normal_components L.

Lemma split_slash_aux_noslash_all s cur :
  has_slash cur = false -> Forall (fun seg => has_slash seg = false) (split_slash_aux s cur).
Proof.
  revert cur. induction s as [|c s IH]; intros cur Hc; simpl.
  - constructor; [exact Hc|constructor].
  - destruct (Ascii.eqb c slash) eqn:E.
    + constructor; [exact Hc|]. apply IH. reflexivity.
    + apply IH. rewrite has_slash_app, Hc. simpl. rewrite E. reflexivity.
Qed.

Lemma split_slash_noslash s : Forall (fun seg => has_slash seg = false) (split_slash s).
Proof. apply split_slash_aux_noslash_all. reflexivity. Qed.

Lemma has_root_segs s : has_root s = root_segs (split_slash s).
Proof.
  destruct s as [|c s']; [reflexivity|]. unfold split_slash. simpl.
  destruct (Ascii.eqb c slash) eqn:E.
  - destruct (split_slash_aux_cons s' "") as [first [more ->]]. reflexivity.
  - destruct (split_slash_aux_cons s' (String c "")) as [first [more ->]]. reflexivity.
Qed.

Lemma include_cur_dir_segs s : include_cur_dir s = String.eqb (hd ""%string (split_slash s)) ".".
Proof.
  destruct s as [|c s']; [reflexivity|]. unfold split_slash, include_cur_dir. simpl.
  unfold dot, slash.
  destruct (Ascii.eqb c "/") eqn:E.
  - apply Ascii.eqb_eq in E. subst c. destruct s'; reflexivity.
  - destruct s' as [|c' s'']; simpl; unfold slash.
    + destruct (Ascii.eqb c "."); reflexivity.
    + destruct (Ascii.eqb c' "/") eqn:E'.
      * simpl. destruct (Ascii.eqb c "."); reflexivity.
      * destruct (split_slash_aux_cons s'' (String c (String c' ""))) as [first [more ->]].
        simpl. destruct (Ascii.eqb c "."); reflexivity.
Qed.

Lemma components_segs s : components s = comps_of_segs (split_slash s).
Proof. unfold components, comps_of_segs. rewrite has_root_segs, include_cur_dir_segs. reflexivity. Qed.

Lemma drop_insig_nil L : drop_insig L = [] -> Forall (fun x => is_sig x = false) L.
Proof.
  induction L as [|y L IH]; simpl; [constructor|].
  destruct (is_sig y) eqn:E; [discriminate|]. intros H. constructor; auto.
Qed.

Lemma drop_insig_cons L x r :
  drop_insig L = x :: r ->
  exists T, L = T ++ x :: r /\ Forall (fun x => is_sig x = false) T /\ is_sig x = true.
Proof.
  induction L as [|y L IH]; simpl; [discriminate|].
  destruct (is_sig y) eqn:E.
  - intros H. injection H as -> ->. exists []. auto.
  - intros H. destruct (IH H) as [T (-> & HT & Hx)]. exists (y :: T). simpl. auto.
Qed.

Lemma normal_components_app A B :
  normal_components (A ++ B) = normal_components A ++ normal_components B.
Proof.
  induction A as [|y A IH]; [reflexivity|]. simpl.
  destruct (String.eqb y ""); [exact IH|]. destruct (String.eqb y "."); [exact IH|].
  destruct (String.eqb y ".."); simpl; rewrite IH; reflexivity.
Qed.

Lemma normal_insig L : Forall (fun x => is_sig x = false) L -> normal_components L = [].
Proof.
  induction 1 as [|y L Hy _ IH]; [reflexivity|]. simpl. unfold is_sig in Hy.
  destruct (String.eqb y ""); [exact IH|]. destruct (String.eqb y "."); [exact IH|].
  discriminate.
Qed.

Definition sig_comp (x : string) : component :=
  if String.eqb x ".." then ParentDir else Normal x.

Lemma normal_sig x : is_sig x = true -> normal_components [x] = [sig_comp x].
Proof.
  unfold is_sig, sig_comp. simpl.
  destruct (String.eqb x ""); [discriminate|]. destruct (String.eqb x "."); [discriminate|].
  intros _. destruct (String.eqb x ".."); reflexivity.
Qed.

Lemma is_sig_ne x : is_sig x = true -> x <> ""%string /\ x <> "."%string.
Proof.
  unfold is_sig. intros H. apply andb_prop in H as [H1 H2].
  split; intros ->; discriminate.
Qed.

Lemma root_segs_app A y B :
  is_sig y = true -> root_segs ((A ++ [y]) ++ B) = root_segs (A ++ [y]).
Proof.
  intros Hy. destruct A as [|a A].
  - simpl. destruct y as [|c y]; [discriminate|]. reflexivity.
  - simpl. destruct a; [|reflexivity]. destruct A; reflexivity.
Qed.

Lemma hd_app_snoc A (y : string) B : hd ""%string ((A ++ [y]) ++ B) = hd ""%string (A ++ [y]).
Proof. destruct A; reflexivity. Qed.

Lemma components_nil : components "" = [].
Proof. reflexivity. Qed.

Lemma concat_len_split (P : list string) x Q :
  P <> [] ->
  String.length (String.concat "/" P) + 1 + String.length x <=
  String.length (String.concat "/" (P ++ x :: Q)).
Proof.
  intros HP. rewrite concat_app by (done || discriminate). rewrite str_length_app. cbn [String.length].
  pose proof (concat_length_ge (x :: Q) x ltac:(apply elem_of_cons; auto)). lia.
Qed.

Lemma sig_length x : is_sig x = true -> 1 <= String.length x.
Proof. intros H. destruct x; [discriminate|]. simpl. lia. Qed.

Lemma rev_drop_split (segs T r : list string) (x : string) :
  rev segs = T ++ x :: r -> segs = rev r ++ [x] ++ rev T.
Proof.
  intros H. rewrite <- (rev_involutive segs), H. rewrite rev_app_distr. simpl.
  rewrite <- app_assoc. reflexivity.
Qed.

Lemma Forall_rev_inv {A} (P : A -> Prop) l : Forall P (rev l) -> Forall P l.
Proof. intros H. rewrite <- (rev_involutive l). apply Forall_rev, H. Qed.

(** [Path::parent] cuts off the last component. *)
Lemma parent_some s q :
  parent s = Some q ->
  (exists c, components s = components q ++ [c]) /\
  String.length q < String.length s /\
  (q = ""%string \/ components q <> []).
Proof.
  unfold parent. rewrite (components_segs s), has_root_segs, include_cur_dir_segs.
  pose proof (concat_split s) as Hs. pose proof (split_slash_noslash s) as Hsl.
  remember (split_slash s) as segs eqn:Es. rewrite <- Hs. clear Es Hs.
  destruct (drop_insig (rev segs)) as [|x r] eqn:D.
  - apply drop_insig_nil, Forall_rev_inv in D.
    destruct (root_segs segs) eqn:R; [discriminate|].
    destruct (String.eqb (hd "" segs) ".") eqn:C; [|discriminate].
    intros H. injection H as <-. split; [|split; [|left; reflexivity]].
    + exists CurDir. unfold comps_of_segs. rewrite R, C, normal_insig by exact D. reflexivity.
    + apply String.eqb_eq in C. destruct segs as [|s0 segs']; [discriminate|].
      simpl in C. subst s0.
      pose proof (concat_length_ge ("." :: segs') "." ltac:(apply elem_of_cons; auto)).
      simpl in H |- *. lia.
  - destruct (drop_insig_cons _ _ _ D) as [T (HT & HTi & Hx)].
    apply rev_drop_split in HT. apply Forall_rev in HTi.
    destruct (is_sig_ne x Hx) as [Hx1 Hx2].
    assert (Hxin : 1 <= String.length (String.concat "/" segs)).
    { pose proof (sig_length x Hx).
      assert (x ∈ segs) by (rewrite HT; apply elem_of_app; right; apply elem_of_cons; auto).
      pose proof (concat_length_ge segs x ltac:(assumption)). lia. }
    destruct (drop_insig r) as [|y r''] eqn:D2.
    + apply drop_insig_nil in D2. apply Forall_rev in D2.
      assert (Hn : normal_components segs = [sig_comp x]).
      { rewrite HT, !normal_components_app, normal_sig, !normal_insig by assumption. reflexivity. }
      assert (Hge : rev r <> [] -> 2 <= String.length (String.concat "/" segs)).
      { intros Hr. rewrite HT. pose proof (concat_len_split (rev r) x (rev T) Hr).
        pose proof (sig_length x Hx). simpl in *. lia. }
      unfold comps_of_segs. rewrite Hn.
      destruct (root_segs segs) eqn:R.
      * intros H. injection H as <-. split; [exists (sig_comp x); reflexivity|].
        split; [|right; discriminate]. simpl. apply Hge.
        intros Hr. rewrite Hr in HT. simpl in HT. subst segs.
        destruct x as [|c x']; [congruence|]. discriminate.
      * destruct (String.eqb (hd "" segs) ".") eqn:C.
        -- intros H. injection H as <-. split; [exists (sig_comp x); reflexivity|].
           split; [|right; discriminate]. simpl. apply Hge.
           intros Hr. rewrite Hr in HT. simpl in HT. subst segs. simpl in C.
           apply String.eqb_eq in C. congruence.
        -- intros H. injection H as <-. split; [exists (sig_comp x); reflexivity|].
           split; [simpl; lia|left; reflexivity].
    + destruct (drop_insig_cons _ _ _ D2) as [T2 (HT2 & HT2i & Hy)].
      apply Forall_rev in HT2i.
      intros H. injection H as <-.
      set (A := rev r'' ++ [y]).
      assert (HA : segs = A ++ (rev T2 ++ [x] ++ rev T)).
      { rewrite HT, HT2, rev_app_distr. simpl. unfold A. rewrite <- !app_assoc. reflexivity. }

      assert (HAne : A <> []) by (unfold A; intros E; destruct (rev r''); discriminate).
      assert (HAsl : Forall (fun seg => has_slash seg = false) A).
      { rewrite HA in Hsl. apply Forall_app in Hsl. tauto. }
      rewrite (components_segs (String.concat "/" A)), split_concat by assumption.
      split; [|split].
      * exists (sig_comp x). rewrite HA. unfold comps_of_segs, A.
        rewrite root_segs_app, hd_app_snoc by exact Hy.
        rewrite !normal_components_app, (normal_sig x Hx), (normal_insig (rev T2) HT2i), (normal_insig (rev T) HTi).
        rewrite !app_nil_l, !app_nil_r, <- !app_assoc. reflexivity.
      * assert (HB : rev T2 ++ [x] ++ rev T <> []).
        { intros E. apply (f_equal length) in E. rewrite !length_app in E. simpl in E. lia. }
        rewrite HA, concat_app by assumption.
        rewrite str_length_app. simpl. lia.
      * right. unfold comps_of_segs, A. rewrite normal_components_app, (normal_sig y Hy).
        intros E. apply (f_equal (@length component)) in E.
        rewrite !length_app in E. simpl in E. lia.
Qed.

Lemma parent_none s :
  parent s = None -> components s = [] \/ components s = [RootDir].
Proof.
  unfold parent. rewrite (components_segs s), has_root_segs, include_cur_dir_segs.
  remember (split_slash s) as segs eqn:Es.
  destruct (drop_insig (rev segs)) as [|x r] eqn:D.
  - apply drop_insig_nil, Forall_rev_inv in D. unfold comps_of_segs.
    rewrite normal_insig by exact D.
    destruct (root_segs segs); [right; reflexivity|].
    destruct (String.eqb (hd "" segs) "."); [discriminate|left; reflexivity].
  - destruct (drop_insig r); discriminate.
Qed.

(** ** [Path::ancestors]: the proper prefixes of the components *)

Lemma prefix_snoc_inv {A} (c l : list A) x :
  c `prefix_of` l ++ [x] -> c <> l ++ [x] -> c `prefix_of` l.
Proof.
  intros [d Hd] Hne. destruct d as [|y d] using rev_ind.
  - rewrite app_nil_r in Hd. congruence.
  - rewrite app_assoc in Hd. apply app_inj_tail in Hd as [Hd _]. exists d. exact Hd.
Qed.

Lemma prefix_singleton_inv {A} (c : list A) x : c `prefix_of` [x] -> c = [] \/ c = [x].
Proof.
  intros [d Hd]. destruct c as [|y c]; [auto|]. destruct c; [|destruct c; discriminate].
  injection Hd as -> Hd. auto.
Qed.

Lemma ancestors_from_sound fuel s a :
  a ∈ ancestors_from fuel s -> a <> ""%string ->
  components a <> [] /\ components a `prefix_of` components s /\ components a <> components s.
Proof.
  revert s. induction fuel as [|fuel IH]; intros s Ha Hne; simpl in Ha; [inversion Ha|].
  destruct (parent s) as [q|] eqn:P; [|inversion Ha].
  destruct (parent_some _ _ P) as [[c Hc] [Hlen Hq]].
  apply elem_of_cons in Ha as [->|Ha].
  - destruct Hq as [Hq|Hq]; [congruence|]. rewrite Hc. split; [exact Hq|].
    split; [exists [c]; reflexivity|]. intros E. apply (f_equal (@length component)) in E.
    rewrite length_app in E. simpl in E. lia.
  - destruct (IH q Ha Hne) as (H1 & H2 & H3). rewrite Hc. split; [exact H1|]. split.
    + etrans; [exact H2|]. exists [c]. reflexivity.
    + intros E. apply prefix_length in H2. rewrite E, length_app in H2. simpl in H2. lia.
Qed.

Lemma ancestors_from_complete fuel s c :
  String.length s <= fuel -> c <> [] -> c `prefix_of` components s -> c <> components s ->
  exists a, a ∈ ancestors_from fuel s /\ a <> ""%string /\ components a = c.
Proof.
  revert s. induction fuel as [|fuel IH]; intros s Hlen Hc Hp Hne.
  - destruct s; [|simpl in Hlen; lia]. rewrite components_nil in Hp.
    apply prefix_nil_inv in Hp. congruence.
  - simpl. destruct (parent s) as [q|] eqn:P.
    + destruct (parent_some _ _ P) as [[c0 Hc0] [Hlq Hq]].
      rewrite Hc0 in Hp, Hne. pose proof (prefix_snoc_inv _ _ _ Hp Hne) as Hp'.
      destruct (decide (c = components q)) as [->|Hne'].
      * exists q. split; [apply elem_of_cons; auto|]. split; [|reflexivity].
        intros ->. rewrite components_nil in Hc. congruence.
      * destruct (IH q ltac:(lia) Hc Hp' Hne') as [a (Ha & Ha' & Hac)].
        exists a. split; [apply elem_of_cons; auto|auto].
    + exfalso. destruct (parent_none _ P) as [E|E]; rewrite E in Hp, Hne.
      * apply prefix_nil_inv in Hp. congruence.
      * destruct (prefix_singleton_inv _ _ Hp); congruence.
Qed.

Lemma ancestors_sound s a :
  a ∈ ancestors s ->
  components a <> [] /\ components a `prefix_of` components s /\ components a <> components s.
Proof.
  unfold ancestors. intros Ha. apply list_elem_of_filter in Ha as [Hne Ha].
  apply (ancestors_from_sound _ _ _ Ha). intros ->. exact Hne.
Qed.

Lemma ancestors_complete s c :
  c <> [] -> c `prefix_of` components s -> c <> components s ->
  exists a, a ∈ ancestors s /\ components a = c.
Proof.
  intros Hc Hp Hne. destruct (ancestors_from_complete (String.length s) s c ltac:(lia) Hc Hp Hne)
    as [a (Ha & Hane & Hac)].
  exists a. split; [|exact Hac]. unfold ancestors. apply list_elem_of_filter. split; [|exact Ha].
  destruct (String.eqb a "") eqn:E; [apply String.eqb_eq in E; congruence|exact I].
Qed.

(** ** Emptiness of a directory *)

(** No entry lies strictly below [k]. *)
Definition dir_empty (fs : gmap (list string) node) (k : list string) : Prop :=
  forall k' nd, fs !! k' = Some nd -> ~ (k `prefix_of` k' /\ k' <> k).

Lemma has_children_false fs k : has_children fs k = false <-> dir_empty fs k.
Proof.
  unfold has_children, dir_empty. rewrite <- not_true_iff_false, existsb_exists.
  split.
  - intros H k' nd Hk' Hp. apply H. exists (k', nd). split.
    + apply list_elem_of_In, elem_of_map_to_list. exact Hk'.
    + simpl. apply bool_decide_eq_true. exact Hp.
  - intros H [[k' nd] [Hin Hb]]. apply list_elem_of_In, elem_of_map_to_list in Hin.
    apply bool_decide_eq_true in Hb. exact (H k' nd Hin Hb).
Qed.

(** ** Arrangements of the implied directories *)

(** What [sort_unstable_by_key(|d| -(d.as_os_str().len()))] guarantees
    of the vector it sorts: a permutation of it, longest strings first. *)
Definition arrange_ok (arrange : list string -> list string) : Prop :=
  forall l, arrange l ≡ₚ l /\ Sorted longer_first (arrange l).

Global Instance longer_first_total : Total longer_first.
Proof. intros a b. unfold longer_first. lia. Qed.

Global Instance longer_first_trans : Transitive longer_first.
Proof. intros a b c. unfold longer_first. lia. Qed.

Lemma sort_dirs_ok : arrange_ok sort_dirs.
Proof.
  intros l. split; [apply merge_sort_Permutation|apply Sorted_merge_sort; exact _].
Qed.

Lemma arrange_nil arrange : arrange_ok arrange -> arrange [] = [].
Proof. intros H. apply Permutation_nil_r, (proj1 (H [])). Qed.

(** ** Case-insensitive comparison of ASCII text *)



(** ** The file loop and the directory loop *)

Section Loops.

Variable content : string.

Lemma delete_files_keeps R `{!PreOrder R} files acc :
  (forall p, keeps R (canonicalize p)) ->
  (forall p, starts_with (components p) (components content) = true -> keeps R (remove_file p)) ->
  keeps R (delete_files content files acc).
Proof.
  intros Hc Hr. revert acc. induction files as [|f files IH]; intros acc; simpl.
  - apply (keeps_ret R).
  - apply (keeps_assert_bind R). intros _.
    apply (keeps_bind R); [apply (keeps_unwrap R), Hc|]. intros abspath.
    apply (keeps_assert_bind R). intros Hs.
    apply (keeps_bind R); [apply Hr, Hs|]. intros _. apply IH.
Qed.

Lemma delete_dirs_keeps R `{!PreOrder R} dirs :
  (forall p, keeps R (canonicalize p)) ->
  (forall p, starts_with (components p) (components content) = true -> keeps R (remove_dir p)) ->
  keeps R (delete_dirs content dirs).
Proof.
  intros Hc Hr. induction dirs as [|d dirs IH]; simpl.
  - apply (keeps_ret R).
  - apply (keeps_bind R); [apply (keeps_unwrap R), Hc|]. intros abspath.
    apply (keeps_assert_bind R). intros Hs.
    apply (keeps_bind R); [apply Hr, Hs|]. intros _. apply IH.
Qed.

(** Every [unlink] of the file loop is of a path below [content], and
    the file loop removes no directory. *)
Definition file_loop_event (e : event) : Prop :=
  match e with
  | EUnlink p => starts_with (components p) (components content) = true
  | ECanonicalize _ => True
  | _ => False
  end.

Definition dir_loop_event (e : event) : Prop :=
  match e with
  | ERmdir p => starts_with (components p) (components content) = true
  | ECanonicalize _ => True
  | _ => False
  end.

Lemma delete_files_events files acc :
  keeps (trace_grows file_loop_event) (delete_files content files acc).
Proof.
  apply delete_files_keeps; [exact _| |].
  - intros p. apply canonicalize_grows. exact I.
  - intros p Hp. apply remove_file_grows. exact Hp.
Qed.

Lemma delete_dirs_events dirs :
  keeps (trace_grows dir_loop_event) (delete_dirs content dirs).
Proof.
  apply delete_dirs_keeps; [exact _| |].
  - intros p. apply canonicalize_grows. exact I.
  - intros p Hp. apply remove_dir_grows. exact Hp.
Qed.

Lemma delete_files_dirs_stay files acc :
  keeps dirs_stay (delete_files content files acc).
Proof.
  apply delete_files_keeps; [exact _| |]; intros; auto with keeps.
Qed.

Lemma delete_files_shrinks files acc :
  keeps fs_shrinks (delete_files content files acc).
Proof.
  apply delete_files_keeps; [exact _| |]; intros; auto with keeps.
Qed.

Lemma delete_dirs_shrinks dirs :
  keeps fs_shrinks (delete_dirs content dirs).
Proof.
  apply delete_dirs_keeps; [exact _| |]; intros; auto with keeps.
Qed.

End Loops.

(** ** Running the file loop over a split manifest *)

Lemma bind_assoc_run {A B C} (m : M A) (k1 : A -> M B) (k2 : B -> M C) w :
  bind (bind m k1) k2 w = bind m (fun a => bind (k1 a) k2) w.
Proof. unfold bind. destruct (m w) as [[a|e|] w']; reflexivity. Qed.

Lemma bind_ext_run {A B} (m : M A) (k1 k2 : A -> M B) w :
  (forall a w', k1 a w' = k2 a w') -> bind m k1 w = bind m k2 w.
Proof. intros H. unfold bind. destruct (m w) as [[a|e|] w']; auto. Qed.

Lemma delete_files_app content l1 l2 acc w :
  delete_files content (l1 ++ l2) acc w =
  bind (delete_files content l1 acc) (fun acc' => delete_files content l2 acc') w.
Proof.
  revert acc w. induction l1 as [|f l1 IH]; intros acc w; [reflexivity|].
  simpl. rewrite bind_assoc_run. apply bind_ext_run. intros [] w1.
  rewrite bind_assoc_run. apply bind_ext_run. intros abspath w2.
  rewrite bind_assoc_run. apply bind_ext_run. intros [] w3.
  rewrite bind_assoc_run. apply bind_ext_run. intros [] w4.
  apply IH.
Qed.

(** The file loop reaching entry [f] with [pre] done: the entry is
    checked, canonicalized and checked again before anything is removed
    for it; a failed check or canonicalization is a panic. *)
Lemma delete_files_at content pre f post acc w acc1 w1 :
  delete_files content pre acc w = (Ok acc1, w1) ->
  delete_files content (pre ++ f :: post) acc w =
  (assert (is_relative (components f));;
   do abspath <- unwrap (canonicalize (path_push content f));
   assert (starts_with (components abspath) (components content));;
   remove_file abspath;;
   delete_files content post
     (fold_left (fun s a => set_insert a s) (ancestors f) acc1)) w1.
Proof.
  intros H. rewrite delete_files_app. unfold bind at 1. rewrite H. reflexivity.
Qed.

Lemma remove_content_dir_panic arrange content files w w' :
  delete_files content files [] w = (Panic, w') ->
  remove_content arrange NDir content files w = (Panic, w').
Proof. intros H. simpl. unfold bind at 1. rewrite H. reflexivity. Qed.

(** ** Descriptor files *)

Definition descriptor_event (watched session : string) (e : event) : Prop :=
  e = EStat watched \/ e = EUnlink watched \/ e = EStat session \/ e = EUnlink session.

Lemma remove_if_exists_events (Q : event -> Prop) p :
  Q (EStat p) -> Q (EUnlink p) -> keeps (trace_grows Q) (remove_if_exists p).
Proof.
  intros H1 H2. unfold remove_if_exists. apply (keeps_bind _).
  - intros w. exists [EStat p]. rewrite path_exists_eq. simpl. auto.
  - intros []; [apply remove_file_grows, H2|apply (keeps_ret _)].
Qed.

Lemma remove_state_files_events watched session :
  keeps (trace_grows (descriptor_event watched session))
    (remove_state_files watched session).
Proof.
  unfold remove_state_files, descriptor_event.
  apply (keeps_bind _); [apply remove_if_exists_events; auto|]. intros _.
  apply remove_if_exists_events; auto.
Qed.

Lemma trace_grows_weaken (Q1 Q2 : event -> Prop) w w' :
  (forall e, Q1 e -> Q2 e) -> trace_grows Q1 w w' -> trace_grows Q2 w w'.
Proof.
  intros H [ev [Ht F]]. exists ev. split; [exact Ht|]. eapply Forall_impl; eauto.
Qed.

Lemma comp_prefix_refl (p : path) : comp_prefix p p = true.
Proof. induction p; simpl; [reflexivity|]. rewrite bool_decide_true by reflexivity. exact IHp. Qed.

(** ** What the file loop removes *)

(** [unlink] of the path [canonicalize] returned removes the location
    the path resolved to. *)
Lemma unlink_resolved_ok fs s k k' :
  resolve_path fs s = ROk k -> unlink_target fs (render k) = ROk k' -> k' = k.
Proof.
  intros H. rewrite (unlink_resolved _ _ _ H). destruct k as [|x k0]; [discriminate|].
  destruct (fs !! (x :: k0)) as [[| |t]|]; try discriminate; intros E; injection E as <-; reflexivity.
Qed.

Lemma delete_files_ok content files acc w acc' w' :
  delete_files content files acc w = (Ok acc', w') ->
  acc' = fold_left add_ancestors files acc /\
  forall f, f ∈ files ->
    is_relative (components f) = true /\
    forall k, resolve_path (w_fs w') (path_push content f) <> ROk k.
Proof.
  revert acc w. induction files as [|f files IH]; intros acc w H.
  - simpl in H. injection H as <- <-. split; [reflexivity|]. intros f Hf. inversion Hf.
  - cbn [delete_files] in H.
    destruct (is_relative (components f)) eqn:Hrel; [|discriminate].
    cbn [assert bind ret] in H. unfold bind at 1, unwrap in H.
    rewrite canonicalize_eq in H.
    destruct (resolve_path (w_fs w) (path_push content f)) as [k|e] eqn:Hw; [|discriminate].
    unfold bind at 1 in H.
    destruct (starts_with (components (render k)) (components content)); [|discriminate].
    cbn [assert bind ret] in H. unfold bind at 1 in H.
    rewrite remove_file_eq in H. cbn [w_fs tick] in H.
    destruct (unlink_target (w_fs w) (render k)) as [k'|e] eqn:U; [|discriminate].
    rewrite (unlink_resolved_ok _ _ _ _ Hw U) in H.
    match type of H with
    | delete_files _ _ ?a ?b = _ => pose proof (delete_files_shrinks content files a b) as Hsh
    end.
    rewrite H in Hsh. unfold fs_shrinks in Hsh. simpl in Hsh.
    apply IH in H as [Hacc Hrest]. split; [exact Hacc|].
    intros g Hg. apply elem_of_cons in Hg as [->|Hg]; [|apply Hrest, Hg].
    split; [exact Hrel|]. intros k2 Hw'.
    apply (resolve_path_weaken _ _ _ _ Hsh) in Hw'.
    pose proof (resolve_path_node _ _ _ Hw') as Hex.
    apply (resolve_path_weaken _ _ _ _ (delete_subseteq (w_fs w) k)) in Hw'.
    rewrite Hw in Hw'. injection Hw' as <-. apply Hex.
    pose proof (unlink_target_spec _ _ _ U) as (nd & _ & _ & Hne).
    rewrite (unlink_resolved_ok _ _ _ _ Hw U) in Hne.
    destruct k; [congruence|]. simpl. apply lookup_delete_eq.
Qed.

(** The file loop deletes only locations its entries resolve to. *)
Lemma delete_files_frame content files acc w o w' :
  delete_files content files acc w = (o, w') ->
  w_fs w' ⊆ w_fs w /\
  forall k, w_fs w !! k <> None -> w_fs w' !! k = None ->
    exists f, f ∈ files /\ resolve_path (w_fs w) (path_push content f) = ROk k.
Proof.
  revert acc w o w'. induction files as [|f files IH]; intros acc w o w' H;
    cbn [delete_files] in H.
  { injection H as _ <-. split; [reflexivity|]. intros k Hs Hn. congruence. }
  assert (Hstop : w_fs w' = w_fs w ->
    w_fs w' ⊆ w_fs w /\
    forall k, w_fs w !! k <> None -> w_fs w' !! k = None ->
      exists f', f' ∈ f :: files /\ resolve_path (w_fs w) (path_push content f') = ROk k).
  { intros Hw'. rewrite Hw'. split; [reflexivity|]. intros k Hs Hn. congruence. }
  destruct (is_relative (components f)) eqn:Hrel.
  2: { apply Hstop. injection H as _ <-. reflexivity. }
  cbn [assert bind ret] in H. unfold bind at 1, unwrap in H. rewrite canonicalize_eq in H.
  destruct (resolve_path (w_fs w) (path_push content f)) as [k|e] eqn:Hw;
    [|apply Hstop; injection H as _ <-; reflexivity].
  unfold bind at 1 in H.
  destruct (starts_with (components (render k)) (components content));
    [|apply Hstop; injection H as _ <-; reflexivity].
  cbn [assert bind ret] in H. unfold bind at 1 in H.
  rewrite remove_file_eq in H. cbn [w_fs tick] in H.
  destruct (unlink_target (w_fs w) (render k)) as [k'|e] eqn:U.
  2: { apply Hstop. injection H as _ <-. reflexivity. }
  rewrite (unlink_resolved_ok _ _ _ _ Hw U) in H.
  apply IH in H as [Hsub Hfr]. simpl in Hsub, Hfr.
  split; [etrans; [exact Hsub|apply delete_subseteq]|].
  intros k1 Hs Hn'.
  destruct (decide (k1 = k)) as [->|Hne].
  { exists f. split; [apply elem_of_cons; left; reflexivity|exact Hw]. }
  assert (Hd : base.delete k (w_fs w) !! k1 <> None)
    by (rewrite lookup_delete_ne by congruence; exact Hs).
  destruct (Hfr k1 Hd Hn') as [g [Hg Hwg]].
  exists g. split; [apply elem_of_cons; right; exact Hg|].
  exact (resolve_path_weaken _ _ _ _ (delete_subseteq (w_fs w) k) Hwg).
Qed.

(** ** The filesystem stays a tree *)

(** Every entry has all its proper prefixes as directories. *)
Definition is_tree (fs : gmap (list string) node) : Prop :=
  forall k nd, fs !! k = Some nd -> placed fs k.

Definition tree_check (fs : gmap (list string) node) : bool :=
  forallb (fun kv => forallb (fun i => is_dir fs (take i kv.1)) (seq 0 (length kv.1)))
          (map_to_list fs).

Lemma tree_check_sound fs : tree_check fs = true -> is_tree fs.
Proof.
  unfold tree_check. rewrite forallb_forall. intros H k nd Hk.
  assert (Hin : In (k, nd) (map_to_list fs))
    by (apply list_elem_of_In, elem_of_map_to_list; exact Hk).
  specialize (H _ Hin). simpl in H. rewrite forallb_forall in H.
  split; [destruct k; simpl; congruence|].
  intros i Hi. apply is_dir_true, H. apply in_seq. lia.
Qed.

Definition tree_kept (w w' : world) : Prop := is_tree (w_fs w) -> is_tree (w_fs w').

Global Instance tree_kept_preorder : PreOrder tree_kept.
Proof. split; unfold tree_kept; [intros w H; exact H|]. intros w1 w2 w3 H12 H23 H. auto. Qed.

Lemma node_at_delete_ne fs k k' :
  k <> [] -> k' <> k -> node_at (base.delete k fs) k' = node_at fs k'.
Proof. intros Hk Hne. destruct k'; [reflexivity|]. simpl. apply lookup_delete_ne. congruence. Qed.

(** In a tree, a location with an entry strictly below it is a directory. *)
Lemma tree_above fs k k' nd :
  is_tree fs -> fs !! k' = Some nd -> k `prefix_of` k' -> k' <> k -> node_at fs k = Some NDir.
Proof.
  intros Ht Hk' [q ->] Hne. destruct (Ht _ _ Hk') as [_ Hp].
  rewrite <- (take_app_length k q). apply Hp. rewrite length_app.
  destruct q; [rewrite app_nil_r in Hne; congruence|simpl; lia].
Qed.

(** Removing a location with nothing below it keeps a tree a tree. *)
Lemma tree_delete fs k :
  is_tree fs -> k <> [] ->
  (forall k' nd, fs !! k' = Some nd -> k `prefix_of` k' -> k' <> k -> False) ->
  is_tree (base.delete k fs).
Proof.
  intros Ht Hk Hno k' nd H'.
  destruct (decide (k' = k)) as [->|Hne]; [rewrite lookup_delete_eq in H'; discriminate|].
  rewrite lookup_delete_ne in H' by congruence.
  destruct (Ht _ _ H') as [Hn Hp]. split.
  - rewrite node_at_delete_ne by assumption. exact Hn.
  - intros i Hi. rewrite node_at_delete_ne; [apply Hp, Hi|exact Hk|].
    intros Heq. apply (Hno k' nd H'); [rewrite <- Heq; apply prefix_take|exact Hne].
Qed.

Lemma keeps_tree_fs_same {A} (m : M A) :
  (forall w, w_fs (snd (m w)) = w_fs w) -> keeps tree_kept m.
Proof. intros H w Ht. rewrite H. exact Ht. Qed.

Lemma remove_file_tree p : keeps tree_kept (remove_file p).
Proof.
  intros w Ht. rewrite remove_file_eq.
  destruct (unlink_target (w_fs w) p) as [k|e] eqn:E; [|exact Ht].
  apply unlink_target_spec in E as (nd & Hk & Hnd & Hne). simpl.
  apply tree_delete; [exact Ht|exact Hne|].
  intros k' nd' Hk' Hpre Hne'. pose proof (tree_above _ _ _ _ Ht Hk' Hpre Hne') as Hd.
  destruct k; [congruence|]. simpl in Hd. congruence.
Qed.

Lemma remove_dir_tree p : keeps tree_kept (remove_dir p).
Proof.
  intros w Ht. rewrite remove_dir_eq.
  destruct (rmdir_target (w_fs w) p) as [k|e] eqn:E; [|exact Ht].
  apply rmdir_target_spec in E as (Hk & Hc & Hne). apply has_children_false in Hc.
  simpl. apply tree_delete; [exact Ht|exact Hne|].
  intros k' nd' Hk' Hpre Hne'. exact (Hc k' nd' Hk' (conj Hpre Hne')).
Qed.

Lemma canonicalize_tree p : keeps tree_kept (canonicalize p).
Proof. apply keeps_tree_fs_same. intros w. apply canonicalize_trace. Qed.

Lemma path_exists_tree p : keeps tree_kept (path_exists p).
Proof. apply keeps_tree_fs_same. intros w. rewrite path_exists_eq. reflexivity. Qed.

Lemma symlink_metadata_tree p : keeps tree_kept (symlink_metadata p).
Proof.
  apply keeps_tree_fs_same. intros w. rewrite symlink_metadata_eq.
  destruct (lookup_entry _ _); reflexivity.
Qed.

Lemma emit_tree ev : keeps tree_kept (emit ev).
Proof. apply keeps_tree_fs_same. intros w. reflexivity. Qed.

Create HintDb tree.
Global Hint Resolve remove_file_tree remove_dir_tree canonicalize_tree path_exists_tree
  symlink_metadata_tree emit_tree : tree.

Lemma remove_content_tree arrange nd content files :
  keeps tree_kept (remove_content arrange nd content files).
Proof.
  destruct nd as [| |t]; simpl.
  - apply (keeps_bind tree_kept).
    + apply delete_files_keeps; [exact _| |]; intros; auto with tree.
    + intros dirs. apply (keeps_bind tree_kept); [|intros; auto with tree].
      apply delete_dirs_keeps; [exact _| |]; intros; auto with tree.
  - apply (keeps_assert_bind tree_kept). intros _.
    destruct files as [|f files]; [apply (keeps_panic tree_kept)|].
    apply (keeps_assert_bind tree_kept). intros _. auto with tree.
  - auto with tree.
Qed.

Lemma remove_if_exists_tree p : keeps tree_kept (remove_if_exists p).
Proof.
  unfold remove_if_exists. apply (keeps_bind tree_kept); [auto with tree|].
  intros []; [auto with tree|apply (keeps_ret tree_kept)].
Qed.

Lemma delete_from_filesystem_tree arrange watched session content files :
  keeps tree_kept (delete_from_filesystem arrange watched session content files).
Proof.
  unfold delete_from_filesystem. apply (keeps_assert_bind tree_kept). intros _.
  apply (keeps_bind tree_kept); [auto with tree|]. intros nd.
  apply (keeps_bind tree_kept); [|intros; apply remove_content_tree].
  unfold remove_state_files.
  apply (keeps_bind tree_kept); [apply remove_if_exists_tree|]. intros _.
  apply remove_if_exists_tree.
Qed.

Lemma delete_tree arrange home dl : keeps tree_kept (delete arrange home dl).
Proof.
  unfold delete. apply (keeps_assert_bind tree_kept). intros _.
  apply (keeps_assert_bind tree_kept). intros _.
  apply (keeps_bind tree_kept).
  - apply (keeps_catch tree_kept), delete_from_filesystem_tree.
  - intros [e|u]; auto with tree.
Qed.

(** ** The directory loop and the final [rmdir] remove only directories *)

Definition only_dirs_removed (w w' : world) : Prop :=
  w_fs w' ⊆ w_fs w /\
  forall k nd, w_fs w !! k = Some nd -> w_fs w' !! k = None -> nd = NDir.

Global Instance only_dirs_removed_preorder : PreOrder only_dirs_removed.
Proof.
  split; unfold only_dirs_removed.
  - intros w. split; [reflexivity|]. intros k nd H1 H2. congruence.
  - intros w1 w2 w3 [Hs12 H12] [Hs23 H23]. split; [etrans; eauto|].
    intros k nd H1 H3. destruct (w_fs w2 !! k) as [nd2|] eqn:H2.
    + pose proof (lookup_weaken _ _ _ _ H2 Hs12) as H. rewrite H1 in H. injection H as ->.
      exact (H23 _ _ H2 H3).
    + exact (H12 _ _ H1 H2).
Qed.

Lemma only_dirs_tick w ev : only_dirs_removed w (tick w ev).
Proof. split; [reflexivity|]. simpl. intros k nd H1 H2. congruence. Qed.

Lemma remove_dir_only_dirs p : keeps only_dirs_removed (remove_dir p).
Proof.
  intros w. rewrite remove_dir_eq.
  destruct (rmdir_target (w_fs w) p) as [k|e] eqn:E; [|apply only_dirs_tick].
  apply rmdir_target_spec in E as (Hk & _ & _).
  split; [apply delete_subseteq|]. simpl. intros k' nd' H1 H2.
  destruct (decide (k' = k)) as [->|Hne]; [congruence|].
  rewrite lookup_delete_ne in H2 by congruence. congruence.
Qed.

Lemma canonicalize_only_dirs p : keeps only_dirs_removed (canonicalize p).
Proof.
  intros w. pose proof (proj2 (canonicalize_trace p w)) as H. split; [rewrite H; reflexivity|].
  rewrite H. intros k nd H1 H2. congruence.
Qed.

(** ** The set of implied directories *)

Lemma set_insert_nodup d s :
  NoDup (map components s) -> NoDup (map components (set_insert d s)).
Proof.
  intros H. unfold set_insert. destruct (existsb _ s) eqn:E; [exact H|].
  rewrite map_app. apply NoDup_app. split; [exact H|]. split; [|apply NoDup_singleton].
  intros x Hx Hx'. simpl in Hx'. apply list_elem_of_singleton in Hx'. subst x.
  apply list_elem_of_fmap in Hx as [d' [Hd' Hin]].
  assert (Hf : existsb (fun d'' => bool_decide (components d'' = components d)) s = true).
  { apply existsb_exists. exists d'. split; [apply list_elem_of_In, Hin|].
    apply bool_decide_eq_true. congruence. }
  congruence.
Qed.

Lemma set_insert_elem d s c :
  c ∈ map components (set_insert d s) <-> c ∈ map components s \/ c = components d.
Proof.
  unfold set_insert. destruct (existsb _ s) eqn:E.
  - apply existsb_exists in E as [d' [Hin Hb]]. apply bool_decide_eq_true in Hb.
    split; [auto|]. intros [H| ->]; [exact H|].
    apply list_elem_of_fmap. exists d'. split; [congruence|apply list_elem_of_In, Hin].
  - rewrite map_app, elem_of_app. simpl. rewrite list_elem_of_singleton. tauto.
Qed.

Lemma fold_insert_nodup (l acc : list string) :
  NoDup (map components acc) ->
  NoDup (map components (fold_left (fun s a => set_insert a s) l acc)).
Proof.
  revert acc. induction l as [|a l IH]; intros acc H; simpl; [exact H|].
  apply IH. apply set_insert_nodup, H.
Qed.

Lemma fold_insert_elem (l acc : list string) c :
  c ∈ map components (fold_left (fun s a => set_insert a s) l acc) <->
  c ∈ map components acc \/ c ∈ map components l.
Proof.
  revert acc. induction l as [|a l IH]; intros acc; simpl.
  - split; [auto|]. intros [H|H]; [exact H|inversion H].
  - rewrite IH, set_insert_elem, elem_of_cons. tauto.
Qed.

Lemma implied_dirs_iff files acc c :
  c ∈ map components (fold_left add_ancestors files acc) <->
  c ∈ map components acc \/ exists f, f ∈ files /\ c ∈ map components (ancestors f).
Proof.
  revert acc. induction files as [|f files IH]; intros acc; simpl.
  - split; [auto|]. intros [H|[f [Hf _]]]; [exact H|inversion Hf].
  - rewrite IH. unfold add_ancestors. rewrite fold_insert_elem. split.
    + intros [[H|H]|[g [Hg Hd]]]; [auto| |].
      * right. exists f. split; [apply elem_of_cons; auto|exact H].
      * right. exists g. split; [apply elem_of_cons; auto|exact Hd].
    + intros [H|[g [Hg Hd]]]; [auto|]. apply elem_of_cons in Hg as [->|Hg]; [auto|].
      right. exists g. auto.
Qed.

Lemma starts_with_refl (p : path) : starts_with p p = true.
Proof. apply comp_prefix_refl. Qed.

Lemma remove_content_empty arrange content w :
  arrange_ok arrange -> remove_content arrange NDir content [] w = remove_dir content w.
Proof.
  intros Harr. unfold remove_content. cbn [delete_files bind ret].
  rewrite (arrange_nil arrange Harr). reflexivity.
Qed.

(** [rmdir] of a path whose last component is a name, below an existing
    directory, of a directory. *)
Lemma rmdir_target_name fs s n d :
  has_nul s = false -> String.eqb s "" = false ->
  last (kcomps s) = Some (Normal n) -> parent_walk fs (kcomps s) = ROk d ->
  fs !! (d ++ [n]) = Some NDir ->
  rmdir_target fs s = if has_children fs (d ++ [n]) then RErr ENOTEMPTY else ROk (d ++ [n]).
Proof.
  intros H1 H2 H3 H4 H5. unfold rmdir_target. rewrite H1, H2, H3, H4, H5. reflexivity.
Qed.

(** C1 (as the code has it): every [unlink] and [rmdir] of a
    directory-root removal is of a path whose components begin with
    those of the root; an entry whose canonicalized join escapes the
    root aborts the removal with a panic before it, or anything after
    it, is removed, and every directory, the root included, is still
    there.  The descriptor files are not part of this guarantee. *)
Theorem containment arrange content files w :
  trace_grows (fun e => forall p, e = EUnlink p \/ e = ERmdir p ->
                                  starts_with (components p) (components content) = true)
    w (snd (remove_content arrange NDir content files w)) /\
  (forall pre f post acc1 w1 abspath w2,
      files = pre ++ f :: post ->
      delete_files content pre [] w = (Ok acc1, w1) ->
      is_relative (components f) = true ->
      canonicalize (path_push content f) w1 = (Ok abspath, w2) ->
      starts_with (components abspath) (components content) = false ->
      remove_content arrange NDir content files w = (Panic, w2) /\ dirs_stay w w2).
Proof.
  split.
  - set (Q := fun e => forall p, e = EUnlink p \/ e = ERmdir p ->
                                 starts_with (components p) (components content) = true).
    simpl. apply (keeps_bind (trace_grows Q)).
    + intros w'. eapply trace_grows_weaken; [|apply delete_files_events].
      intros [] He q [Hq|Hq]; simpl in He; try contradiction; try discriminate;
        injection Hq as <-; exact He.
    + intros dirs. apply (keeps_bind (trace_grows Q)).
      * intros w'. eapply trace_grows_weaken; [|apply delete_dirs_events].
        intros [] He q [Hq|Hq]; simpl in He; try contradiction; try discriminate;
          injection Hq as <-; exact He.
      * intros _. apply remove_dir_grows. intros q [Hq|Hq]; [discriminate|injection Hq as <-].
        apply starts_with_refl.
  - intros pre f post acc1 w1 abspath w2 -> Hpre Hrel Hc Hs. split.
    + apply remove_content_dir_panic. rewrite (delete_files_at _ _ _ _ _ _ _ _ Hpre).
      rewrite Hrel. cbn [assert bind ret]. unfold bind at 1, unwrap. rewrite Hc.
      unfold bind at 1. rewrite Hs. reflexivity.
    + etrans; [apply (delete_files_dirs_stay content pre [] w)|]. rewrite Hpre. simpl.
      replace w2 with (snd (canonicalize (path_push content f) w1)) by (rewrite Hc; reflexivity).
      apply canonicalize_dirs_stay.
Qed.

(** C2 (as the code has it): an absent watch or session descriptor is
    skipped without error, each on its own; but the content side fails
    on what is already gone: an absent content root is the not-found
    error of [lstat], before anything is removed, and a declared file
    that no longer resolves makes canonicalization fail, which panics
    before that file or anything after it is removed. *)
Theorem absent_entries arrange :
  (forall watched session w e,
      resolve_path (w_fs w) watched = RErr e ->
      remove_state_files watched session w = remove_if_exists session (tick w (EStat watched))) /\
  (forall watched session w w1 e,
      remove_if_exists watched w = (Ok tt, w1) ->
      resolve_path (w_fs w1) session = RErr e ->
      remove_state_files watched session w = (Ok tt, tick w1 (EStat session))) /\
  (forall watched session content files w,
      is_absolute (components content) = true ->
      lookup_entry (w_fs w) content = RErr ENOENT ->
      delete_from_filesystem arrange watched session content files w =
        (Err ENOENT, tick w (ELstat content))) /\
  (forall content pre f post w acc1 w1 e,
      delete_files content pre [] w = (Ok acc1, w1) ->
      is_relative (components f) = true ->
      resolve_path (w_fs w1) (path_push content f) = RErr e ->
      remove_content arrange NDir content (pre ++ f :: post) w =
        (Panic, tick w1 (ECanonicalize (path_push content f)))).
Proof.
  split; [|split; [|split]].
  - intros watched session w e H. unfold remove_state_files, remove_if_exists.
    unfold bind at 1 2. rewrite path_exists_eq, H. reflexivity.
  - intros watched session w w1 e H1 H2. unfold remove_state_files.
    unfold bind at 1. rewrite H1. unfold remove_if_exists, bind.
    rewrite path_exists_eq, H2. reflexivity.
  - intros watched session content files w Habs Hl. unfold delete_from_filesystem.
    rewrite Habs. cbn [assert bind ret]. unfold bind at 1.
    rewrite symlink_metadata_eq, Hl. reflexivity.
  - intros content pre f post w acc1 w1 e Hpre Hrel Hw.
    apply remove_content_dir_panic. rewrite (delete_files_at _ _ _ _ _ _ _ _ Hpre).
    rewrite Hrel. cbn [assert bind ret]. unfold bind at 1, unwrap.
    rewrite canonicalize_eq, Hw. reflexivity.
Qed.

(** C3: with a regular-file root, removal succeeds only when the
    manifest has exactly one entry and the root path ends with that
    entry (the entry names the root file); any other manifest (empty,
    several entries, a different name) is an integrity fault, raised
    before anything is touched. *)
Theorem single_file_fidelity arrange content files w :
  (fst (remove_content arrange NFile content files w) = Ok tt ->
   exists f, files = [f] /\ ends_with (components content) (components f) = true) /\
  (~ (exists f, files = [f] /\ ends_with (components content) (components f) = true) ->
   remove_content arrange NFile content files w = (Panic, w)).
Proof.
  simpl. destruct files as [|f [|f' files]]; simpl.
  - split; [discriminate|reflexivity].
  - destruct (ends_with (components content) (components f)) eqn:E; simpl.
    + split; [eauto|]. intros H. exfalso. apply H. eauto.
    + split; [discriminate|reflexivity].
  - split; [discriminate|reflexivity].
Qed.

(** C4 (as the code has it): the content root is classified by [lstat]
    first, and an [lstat] failure ends the removal before any descriptor
    is touched; then only the descriptor files are touched, and a failure
    there ends the removal before any content is touched; the caller
    [delete] reports such an error and returns normally, so the loop goes
    on with the next download. *)
Theorem lstat_then_descriptors_then_content arrange :
  (forall watched session content files w e,
      is_absolute (components content) = true ->
      lookup_entry (w_fs w) content = RErr e ->
      delete_from_filesystem arrange watched session content files w =
        (Err e, tick w (ELstat content))) /\
  (forall watched session content files w k nd,
      is_absolute (components content) = true ->
      lookup_entry (w_fs w) content = ROk (k, nd) ->
      let wl := tick w (ELstat content) in
      trace_grows (descriptor_event watched session) wl
        (snd (remove_state_files watched session wl)) /\
      delete_from_filesystem arrange watched session content files w =
        match remove_state_files watched session wl with
        | (Ok _, w1) => remove_content arrange nd content files w1
        | (Err e, w1) => (Err e, w1)
        | (Panic, w1) => (Panic, w1)
        end) /\
  (forall home dl w e w1,
      root_ok (tilde home (dl_base_path dl)) = true ->
      delete_from_filesystem arrange (tilde home (dl_tied_to_file dl))
        (tilde home (dl_loaded_file dl)) (tilde home (dl_base_path dl)) (dl_files dl) w
        = (Err e, w1) ->
      delete arrange home dl w = (Ok tt, tick w1 (EPrint (RError (dl_name dl) e)))).
Proof.
  split; [|split].
  - intros watched session content files w e Habs Hl. unfold delete_from_filesystem.
    rewrite Habs. cbn [assert bind ret]. unfold bind at 1.
    rewrite symlink_metadata_eq, Hl. reflexivity.
  - intros watched session content files w k nd Habs Hl wl. split.
    + apply remove_state_files_events.
    + unfold delete_from_filesystem. rewrite Habs. cbn [assert bind ret].
      unfold bind at 1. rewrite symlink_metadata_eq, Hl. simpl.
      unfold bind at 1. fold wl.
      destruct (remove_state_files _ _ wl) as [[[]|e|] w1]; reflexivity.
  - intros home dl w e w1 Hok H. unfold delete. unfold root_ok in Hok.
    apply andb_prop in Hok as [Hok _]. apply andb_prop in Hok as [H1 H2].
    rewrite H1, H2. cbn [assert bind ret]. unfold bind at 1, catch. rewrite H. reflexivity.
Qed.

(** C6: with a symlink root (as [lstat] reports it), only the link
    itself is unlinked: every other entry of the filesystem, the link's
    target and whatever lies below it included, is left as it was, and
    the declared files play no part. *)
Theorem symlink_non_recursion arrange t content files w k :
  lookup_entry (w_fs w) content = ROk (k, NSymlink t) ->
  remove_content arrange (NSymlink t) content files w =
    (Ok tt, World (base.delete k (w_fs w)) (w_trace w ++ [EUnlink content])) /\
  (forall k', k' <> k -> base.delete k (w_fs w) !! k' = w_fs w !! k').
Proof.
  intros H. split.
  - simpl. rewrite remove_file_eq, (lookup_symlink_unlink _ _ _ _ H). reflexivity.
  - intros k' Hne. apply lookup_delete_ne. congruence.
Qed.

(** C7 (as the code has it): a content path that is "/", at most one
    character long or not absolute fails an assertion before anything is
    removed; a declared entry that is not relative fails an assertion
    only in the directory branch, when the file loop reaches it; in the
    symlink branch the entries are not looked at, and in the file branch
    the single entry is only matched against the end of the root, so an
    absolute entry passes there unchecked; a panic is caught nowhere, so
    it ends the whole run and no later download is processed. *)
Theorem precondition_violation_aborts_run arrange :
  (forall home lowercase dl dls host w,
      is_unregistered lowercase (dl_message dl) = true ->
      dl_tracker_host dl = Some host ->
      root_ok (tilde home (dl_base_path dl)) = false ->
      main_loop arrange home lowercase (dl :: dls) w =
        (Panic, tick w (EPrint (RUnregistered host (dl_name dl))))) /\
  (forall content pre f post w acc1 w1,
      delete_files content pre [] w = (Ok acc1, w1) ->
      is_relative (components f) = false ->
      remove_content arrange NDir content (pre ++ f :: post) w = (Panic, w1)) /\
  (forall t content files w,
      remove_content arrange (NSymlink t) content files w = remove_file content w) /\
  (forall content f w,
      ends_with (components content) (components f) = true ->
      remove_content arrange NFile content [f] w = remove_file content w) /\
  (forall home lowercase dl dls host w w1,
      is_unregistered lowercase (dl_message dl) = true ->
      dl_tracker_host dl = Some host ->
      delete arrange home dl (tick w (EPrint (RUnregistered host (dl_name dl)))) = (Panic, w1) ->
      main_loop arrange home lowercase (dl :: dls) w = (Panic, w1)).
Proof.
  split; [|split; [|split; [|split]]].
  - intros home lowercase dl dls host w Hu Hh Hbad. simpl. rewrite Hu, Hh. simpl.
    unfold bind at 1. simpl. unfold bind at 1. unfold delete.
    unfold root_ok in Hbad.
    destruct (String.eqb (tilde home (dl_base_path dl)) "/"%string); [reflexivity|].
    destruct (1 <? String.length (tilde home (dl_base_path dl))); [|reflexivity].
    simpl in Hbad. cbn [assert bind ret negb]. unfold bind at 1, catch.
    unfold delete_from_filesystem. rewrite Hbad. reflexivity.
  - intros content pre f post w acc1 w1 Hpre Hrel.
    apply remove_content_dir_panic. rewrite (delete_files_at _ _ _ _ _ _ _ _ Hpre).
    rewrite Hrel. reflexivity.
  - intros t content files w. reflexivity.
  - intros content f w H. simpl. rewrite H. reflexivity.
  - intros home lowercase dl dls host w w1 Hu Hh Hd. cbn [main_loop]. rewrite Hu, Hh.
    cbn [negb]. unfold tick in Hd. unfold bind at 1, emit. cbv beta iota.
    unfold bind at 1. rewrite Hd. reflexivity.
Qed.


(** C9: a directory root with an empty manifest: no file and no implied
    directory is removed, the only system call is one [rmdir] of the
    root.  It succeeds only when the root is an empty directory, which
    it then removes; otherwise it reports an error and changes nothing.
    When the root path ends in a name of an existing directory, the
    [rmdir] succeeds exactly when that directory is empty, and otherwise
    reports [ENOTEMPTY]. *)
Theorem empty_manifest_directory arrange content w :
  arrange_ok arrange ->
  let (r, w') := remove_content arrange NDir content [] w in
  w_trace w' = w_trace w ++ [ERmdir content] /\
  (r = Ok tt -> exists k, lookup_entry (w_fs w) content = ROk (k, NDir) /\
                          dir_empty (w_fs w) k /\ w_fs w' = base.delete k (w_fs w)) /\
  (r <> Ok tt -> (exists e, r = Err e) /\ w_fs w' = w_fs w) /\
  (forall n d,
      has_nul content = false -> String.eqb content "" = false ->
      last (kcomps content) = Some (Normal n) ->
      parent_walk (w_fs w) (kcomps content) = ROk d ->
      w_fs w !! (d ++ [n]) = Some NDir ->
      (r = Ok tt <-> dir_empty (w_fs w) (d ++ [n])) /\ (r <> Ok tt -> r = Err ENOTEMPTY)).
Proof.
  intros Harr. rewrite (remove_content_empty _ _ _ Harr), remove_dir_eq.
  destruct (rmdir_target (w_fs w) content) as [k|e] eqn:E.
  - pose proof (rmdir_target_spec _ _ _ E) as (_ & Hc & _).
    split; [reflexivity|]. split; [|split; [intros H; congruence|]].
    + intros _. exists k. split; [apply rmdir_lookup, E|].
      split; [apply has_children_false, Hc|reflexivity].
    + intros n d H1 H2 H3 H4 H5. rewrite (rmdir_target_name _ _ _ _ H1 H2 H3 H4 H5) in E.
      destruct (has_children (w_fs w) (d ++ [n])) eqn:Hc'; [discriminate|].
      split; [|congruence]. split; [intros _; apply has_children_false, Hc'|reflexivity].
  - split; [reflexivity|]. split; [discriminate|]. split; [intros _; split; [eauto|reflexivity]|].
    intros n d H1 H2 H3 H4 H5. rewrite (rmdir_target_name _ _ _ _ H1 H2 H3 H4 H5) in E.
    destruct (has_children (w_fs w) (d ++ [n])) eqn:Hc'; [|discriminate].
    injection E as <-. split; [|reflexivity].
    split; [discriminate|]. intros He. apply has_children_false in He. congruence.
Qed.

(** C10: with a symlink root the declared files are never looked at and
    the only system call is the [unlink] of the root; with a regular-file
    root the only system call is that [unlink] (or none, when the
    manifest check fails): neither branch canonicalizes anything. *)
Theorem symlink_and_file_roots_unchecked :
  (forall arrange t content files1 files2 w,
      remove_content arrange (NSymlink t) content files1 w =
      remove_content arrange (NSymlink t) content files2 w) /\
  (forall arrange t content files w,
      w_trace (snd (remove_content arrange (NSymlink t) content files w)) =
      w_trace w ++ [EUnlink content]) /\
  (forall arrange content files w,
      w_trace (snd (remove_content arrange NFile content files w)) = w_trace w \/
      w_trace (snd (remove_content arrange NFile content files w)) =
      w_trace w ++ [EUnlink content]).
Proof.
  split; [|split].
  - reflexivity.
  - intros. apply remove_file_trace.
  - intros arrange content files w. simpl.
    destruct files as [|f [|f' files]]; simpl; [left; reflexivity| |left; reflexivity].
    destruct (ends_with (components content) (components f)); simpl; [|left; reflexivity].
    right. apply remove_file_trace.
Qed.

(** Every run keeps the filesystem a tree: an entry is only ever removed
    when nothing lies below it, so no entry loses its parent directory. *)
Theorem run_keeps_tree arrange home lowercase dls w :
  is_tree (w_fs w) -> is_tree (w_fs (snd (main_loop arrange home lowercase dls w))).
Proof.
  revert w. cut (keeps tree_kept (main_loop arrange home lowercase dls)); [intros H w; apply H|].
  induction dls as [|dl dls IH]; simpl; [apply (keeps_ret tree_kept)|].
  destruct (negb (is_unregistered lowercase (dl_message dl))); [exact IH|].
  destruct (dl_tracker_host dl); [|apply (keeps_panic tree_kept)].
  apply (keeps_bind tree_kept); [auto with tree|]. intros _.
  apply (keeps_bind tree_kept); [apply delete_tree|]. intros _. exact IH.
Qed.

(** A directory-root removal, whatever its outcome, deletes no file and
    no symlink other than the locations the declared entries resolved to
    before it started: an undeclared file is never removed. *)
Theorem dir_removal_frame arrange content files w o w' :
  remove_content arrange NDir content files w = (o, w') ->
  forall k nd, w_fs w !! k = Some nd -> nd <> NDir -> w_fs w' !! k = None ->
    exists f, f ∈ files /\ resolve_path (w_fs w) (path_push content f) = ROk k.
Proof.
  intros H k nd Hk Hnd Hn'. simpl in H. unfold bind at 1 in H.
  destruct (delete_files content files [] w) as [o1 w1] eqn:E1.
  destruct (delete_files_frame _ _ _ _ _ _ E1) as [Hsub1 Hfr1].
  destruct (w_fs w1 !! k) as [nd1|] eqn:Hk1; [|apply Hfr1; congruence].
  exfalso. pose proof (lookup_weaken _ _ _ _ Hk1 Hsub1) as Hk1'. rewrite Hk in Hk1'.
  injection Hk1' as <-.
  destruct o1 as [acc|e|]; [|injection H as _ <-; congruence|injection H as _ <-; congruence].
  change ((delete_dirs content (arrange acc);; remove_dir content) w1 = (o, w')) in H.
  assert (Hr : keeps only_dirs_removed (delete_dirs content (arrange acc);; remove_dir content)).
  { apply (keeps_bind only_dirs_removed); [|intros; apply remove_dir_only_dirs].
    apply delete_dirs_keeps; [exact _| |]; intros;
      [apply canonicalize_only_dirs|apply remove_dir_only_dirs]. }
  specialize (Hr w1). rewrite H in Hr. destruct Hr as [_ Hr]. simpl in Hr.
  exact (Hnd (Hr _ _ Hk1 Hn')).
Qed.

(** A directory-root removal that succeeds leaves nothing at the root's
    location or below it. *)
Theorem dir_removal_success_clears_root arrange content files w w' :
  remove_content arrange NDir content files w = (Ok tt, w') ->
  exists k, lookup_entry (w_fs w) content = ROk (k, NDir) /\
            forall k', k `prefix_of` k' -> w_fs w' !! k' = None.
Proof.
  intros H. simpl in H. unfold bind at 1 in H.
  pose proof (delete_files_shrinks content files [] w) as Hs1. unfold fs_shrinks in Hs1.
  destruct (delete_files content files [] w) as [[acc|e|] w1] eqn:E1; try discriminate.
  simpl in Hs1. unfold bind at 1 in H.
  pose proof (delete_dirs_shrinks content (arrange acc) w1) as Hs2. unfold fs_shrinks in Hs2.
  destruct (delete_dirs content (arrange acc) w1) as [[[]|e|] w2] eqn:E2; try discriminate.
  simpl in Hs2. rewrite remove_dir_eq in H.
  destruct (rmdir_target (w_fs w2) content) as [k|e] eqn:E; [|discriminate].
  injection H as <-. pose proof (rmdir_target_spec _ _ _ E) as (_ & Hc & _).
  apply has_children_false in Hc.
  exists k. split.
  { eapply lookup_entry_weaken; [etrans; [exact Hs2|exact Hs1]|apply rmdir_lookup, E]. }
  intros k' [q ->]. simpl. destruct (decide (q = [])) as [->|Hq].
  - rewrite app_nil_r. apply lookup_delete_eq.
  - assert (Hne : k ++ q <> k).
    { intros Heq. apply (f_equal length) in Heq. rewrite length_app in Heq.
      destruct q; [congruence|simpl in Heq; lia]. }
    rewrite lookup_delete_ne by congruence.
    destruct (w_fs w2 !! (k ++ q)) as [nd'|] eqn:Hq'; [|reflexivity].
    exfalso. apply (Hc _ _ Hq'). split; [exists q; reflexivity|exact Hne].
Qed.

(** [directories] as the file loop leaves it: no path twice (a [HashSet]
    of paths compares them component-wise), and, up to that comparison,
    exactly the non-empty proper ancestors of the declared entries. *)
Theorem implied_dirs_spec files :
  NoDup (map components (implied_dirs files)) /\
  forall c, c ∈ map components (implied_dirs files) <->
    exists f, f ∈ files /\ c <> [] /\ c `prefix_of` components f /\ c <> components f.
Proof.
  split.
  - unfold implied_dirs. assert (H : NoDup (map components (@nil string))) by constructor.
    revert H. generalize (@nil string) as acc0.
    induction files as [|f files IH]; intros acc H; simpl; [exact H|].
    apply IH. apply fold_insert_nodup. exact H.
  - intros c. unfold implied_dirs. rewrite implied_dirs_iff. split.
    + intros [H|[f [Hf Hd]]]; [inversion H|].
      apply list_elem_of_fmap in Hd as [a [-> Ha]].
      destruct (ancestors_sound _ _ Ha) as (H1 & H2 & H3). exists f. auto.
    + intros [f (Hf & H1 & H2 & H3)]. right. exists f. split; [exact Hf|].
      destruct (ancestors_complete _ _ H1 H2 H3) as [a [Ha Hc]].
      apply list_elem_of_fmap. exists a. split; [congruence|exact Ha].
Qed.

(** A file loop that completes has checked every entry to be relative,
    has collected the implied directories, and leaves none of the
    entries resolvable. *)
Theorem file_loop_success content files w dirs w' :
  delete_files content files [] w = (Ok dirs, w') ->
  dirs = implied_dirs files /\
  forall f, f ∈ files ->
    is_relative (components f) = true /\
    forall k, resolve_path (w_fs w') (path_push content f) <> ROk k.
Proof. intros H. exact (delete_files_ok _ _ _ _ _ _ H). Qed.

(** [delete] never returns a filesystem error: once its assertions
    pass, an error of the removal is printed and [delete] returns
    normally, and a successful removal prints "Ok."; a content path that
    is "/", at most one character long or not absolute makes it panic
    before any system call or output. *)
Theorem delete_squashes_errors arrange home dl w :
  let c := tilde home (dl_base_path dl) in
  (root_ok c = true ->
   delete arrange home dl w =
     match delete_from_filesystem arrange (tilde home (dl_tied_to_file dl))
             (tilde home (dl_loaded_file dl)) c (dl_files dl) w with
     | (Ok _, w1) => (Ok tt, tick w1 (EPrint ROkLine))
     | (Err e, w1) => (Ok tt, tick w1 (EPrint (RError (dl_name dl) e)))
     | (Panic, w1) => (Panic, w1)
     end) /\
  (forall e, fst (delete arrange home dl w) <> Err e) /\
  (root_ok c = false -> delete arrange home dl w = (Panic, w)).
Proof.
  cbv zeta. unfold delete. set (c := tilde home (dl_base_path dl)).
  split; [|split].
  - unfold root_ok. fold c. intros Hr.
    apply andb_prop in Hr as [Hr _]. apply andb_prop in Hr as [H1 H2].
    rewrite H1, H2. cbn [assert bind ret]. unfold bind at 1, catch.
    destruct (delete_from_filesystem arrange _ _ c (dl_files dl) w) as [[u|e'|] w1];
      reflexivity.
  - intros e. destruct (negb (String.eqb c "/")); [|discriminate].
    destruct (1 <? String.length c); [|discriminate].
    cbn [assert bind ret]. unfold bind at 1, catch.
    destruct (delete_from_filesystem arrange _ _ c (dl_files dl) w) as [[u|e'|] w1];
      [|unfold emit; discriminate|discriminate].
    unfold emit. discriminate.
  - unfold root_ok. fold c. intros Hr.
    destruct (negb (String.eqb c "/")); [|reflexivity].
    destruct (1 <? String.length c); [|reflexivity].
    simpl in Hr. cbn [assert bind ret]. unfold bind at 1, catch.
    unfold delete_from_filesystem. rewrite Hr. reflexivity.
Qed.

(** A run in which no download's message, lowercased, begins with the
    lowercased marker touches nothing and prints nothing. *)
Theorem main_loop_nothing_selected arrange home lowercase dls w :
  Forall (fun dl => is_unregistered lowercase (dl_message dl) = false) dls ->
  main_loop arrange home lowercase dls w = (Ok tt, w).
Proof.
  intros H. induction H as [|dl dls Hdl _ IH]; [reflexivity|].
  simpl. rewrite Hdl. exact IH.
Qed.

(** ** Directories spelled with runs of separators *)

(** Any arrangement that sorts the implied directories of [nested_files]
    longest string first puts them in one order: their lengths differ. *)
Lemma arrange_nested arrange :
  arrange_ok arrange -> arrange (implied_dirs nested_files) = ["a//////b"; "a/b/c"; "a"]%string.
Proof.
  intros Harr. destruct (Harr (implied_dirs nested_files)) as [Hp Hs].
  apply Permutation_sym, permutations_Permutation, list_elem_of_In in Hp.
  revert Hp Hs. generalize (arrange (implied_dirs nested_files)) as l. intros l Hp Hs.
  vm_compute in Hp.
  repeat (destruct Hp as [<-|Hp];
          [first [reflexivity
                 |exfalso; pose proof (bool_decide_eq_true_2 _ Hs) as Hb;
                  vm_compute in Hb; discriminate]|]).
  contradiction.
Qed.

Lemma remove_content_arrange arrange1 arrange2 content files w acc w1 :
  delete_files content files [] w = (Ok acc, w1) -> arrange1 acc = arrange2 acc ->
  remove_content arrange1 NDir content files w = remove_content arrange2 NDir content files w.
Proof. intros H Ha. simpl. unfold bind at 1 3. rewrite H, Ha. reflexivity. Qed.

Lemma delete_from_filesystem_dir arrange watched session content files w k w1 :
  is_absolute (components content) = true ->
  lookup_entry (w_fs w) content = ROk (k, NDir) ->
  remove_state_files watched session (tick w (ELstat content)) = (Ok tt, w1) ->
  delete_from_filesystem arrange watched session content files w =
    remove_content arrange NDir content files w1.
Proof.
  intros Ha Hl Hr. unfold delete_from_filesystem. rewrite Ha. cbn [assert bind ret].
  unfold bind at 1. rewrite symlink_metadata_eq, Hl. simpl. unfold bind at 1. rewrite Hr.
  reflexivity.
Qed.

(** C5 (as the code has it): the implied directories are ordered by the
    length of their strings, not by their depth.  With the manifest
    ["a//////b/f"; "a/b/c/g"] under /data/show, the set keeps the
    spelling a//////b (eight bytes) for the directory a/b, which sorts
    before a/b/c (five bytes) under every arrangement the sort allows:
    the [rmdir] of a/b runs while a/b/c is still in it, fails with
    [ENOTEMPTY], and a/b/c is left in place. *)
Theorem nested_removal_fails arrange :
  arrange_ok arrange ->
  let r := delete_from_filesystem arrange "/w/a.torrent" "/s/a.torrent" "/data/show"
             nested_files (w0 fs_nested) in
  fst r = Err ENOTEMPTY /\
  w_fs (snd r) !! ["data"; "show"; "a"; "b"; "c"]%string = Some NDir /\
  last (w_trace (snd r)) = Some (ERmdir "/data/show/a/b").
Proof.
  intros Harr. cbv zeta.
  set (wl := tick (w0 fs_nested) (ELstat "/data/show")).
  set (w1 := snd (remove_state_files "/w/a.torrent" "/s/a.torrent" wl)).
  assert (Hl : lookup_entry (w_fs (w0 fs_nested)) "/data/show" =
               ROk (["data"; "show"]%string, NDir)) by (vm_compute; reflexivity).
  assert (Hr : remove_state_files "/w/a.torrent" "/s/a.torrent" wl = (Ok tt, w1))
    by (vm_compute; reflexivity).
  assert (Hd : delete_files "/data/show" nested_files [] w1 =
               (Ok (implied_dirs nested_files),
                snd (delete_files "/data/show" nested_files [] w1)))
    by (vm_compute; reflexivity).
  assert (Ha : arrange (implied_dirs nested_files) = sort_dirs (implied_dirs nested_files))
    by (rewrite (arrange_nested _ Harr); vm_compute; reflexivity).
  rewrite (delete_from_filesystem_dir arrange "/w/a.torrent" "/s/a.torrent" "/data/show"
            nested_files (w0 fs_nested) _ _ eq_refl Hl Hr).
  rewrite (remove_content_arrange _ _ _ _ _ _ _ Hd Ha).
  vm_compute. repeat split.
Qed.

(** ** Counterexamples *)

(** C1 as stated fails on Scenario C: with root /data/show and the
    manifest ["../escape.mkv"] (and /data/escape.mkv present) the removal
    panics on the containment check, but the watch and session
    descriptors have already been deleted. *)
Lemma scenario_c_deletes_descriptors :
  let w := w0 fs_escape in
  let r := delete_from_filesystem sort_dirs "/w/a.torrent" "/s/a.torrent" "/data/show/"
             ["../escape.mkv"]%string w in
  fst r = Panic /\
  w_fs w !! ["w"; "a.torrent"]%string = Some NFile /\
  w_fs (snd r) !! ["w"; "a.torrent"]%string = None /\
  w_fs (snd r) !! ["s"; "a.torrent"]%string = None /\
  w_fs (snd r) !! ["data"; "escape.mkv"]%string = Some NFile.
Proof. vm_compute. repeat split. Qed.

(** C2 as stated fails: after Scenario B has been removed completely,
    a second run fails with [ENOENT] (the [lstat] of the absent root);
    and with S01/e1.mkv already gone a first run panics on it. *)
Lemma second_run_fails :
  fst run_b = Ok tt /\
  fst (delete_from_filesystem sort_dirs "/w/a.torrent" "/s/a.torrent" "/data/show/"
         ["S01/e1.mkv"; "S01/e2.mkv"]%string (snd run_b)) = Err ENOENT /\
  fst (delete_from_filesystem sort_dirs "/w/a.torrent" "/s/a.torrent" "/data/show/"
         ["S01/e1.mkv"; "S01/e2.mkv"]%string
         (w0 (filter (fun e => e.1 <> ["data"; "show"; "S01"; "e1.mkv"]%string) fs_show)))
    = Panic.
Proof. vm_compute. repeat split. Qed.

(** C4 as stated fails: the [lstat] of the content root is the first
    system call, and when it fails the descriptors are not removed; and
    when removing a descriptor fails (here the watch path is a
    directory), the content file is not removed. *)
Lemma content_inspected_first :
  let r1 := delete_from_filesystem sort_dirs "/w/a.torrent" "/s/a.torrent" "/data/gone"
              [] (w0 fs_show) in
  let r2 := delete_from_filesystem sort_dirs "/w/a.torrent" "/s/a.torrent" "/data/movie.mkv"
              ["movie.mkv"]%string (w0 fs_watch_dir) in
  fst r1 = Err ENOENT /\
  w_trace (snd r1) = [ELstat "/data/gone"] /\
  w_fs (snd r1) !! ["w"; "a.torrent"]%string = Some NFile /\
  fst r2 = Err EISDIR /\
  w_fs (snd r2) !! ["data"; "movie.mkv"]%string = Some NFile.
Proof. vm_compute. repeat split. Qed.

(** C5 as stated fails: under /data/show with a/b/f and a/b/c/g, the
    manifest ["a//////b/f"; "a/b/c/g"] has the implied directories
    sorted as a//////b, a/b/c, a; the parent a/b is handed to [rmdir]
    before its child a/b/c, and the removal fails with [ENOTEMPTY]; the
    same files spelled plainly are removed without error. *)
Lemma nested_dirs_parent_first :
  let r := delete_from_filesystem sort_dirs "/w/a.torrent" "/s/a.torrent" "/data/show"
             nested_files (w0 fs_nested) in
  sort_dirs (implied_dirs nested_files) = ["a//////b"; "a/b/c"; "a"]%string /\
  fst r = Err ENOTEMPTY /\
  w_trace (snd r) =
    [ELstat "/data/show"; EStat "/w/a.torrent"; EStat "/s/a.torrent";
     ECanonicalize "/data/show/a//////b/f"; EUnlink "/data/show/a/b/f";
     ECanonicalize "/data/show/a/b/c/g"; EUnlink "/data/show/a/b/c/g";
     ECanonicalize "/data/show/a//////b"; ERmdir "/data/show/a/b"]%string /\
  w_fs (snd r) !! ["data"; "show"; "a"; "b"; "c"]%string = Some NDir /\
  fst (delete_from_filesystem sort_dirs "/w/a.torrent" "/s/a.torrent" "/data/show"
         ["a/b/f"; "a/b/c/g"]%string (w0 fs_nested)) = Ok tt.
Proof. vm_compute. repeat split. Qed.

(** C7 as stated fails: a download whose content path is "/" panics,
    and the next download in the list, Scenario B, is never processed. *)
Lemma root_slash_aborts_run :
  let r := main_loop sort_dirs "/root" to_ascii_lowercase
             [dl_rooted_at "/" []; dl_rooted_at "/data/show" ["S01/e1.mkv"; "S01/e2.mkv"]]%string
             (w0 fs_show) in
  fst r = Panic /\
  w_fs (snd r) !! ["data"; "show"; "S01"; "e1.mkv"]%string = Some NFile /\
  w_fs (snd r) !! ["w"; "a.torrent"]%string = Some NFile /\
  fst (main_loop sort_dirs "/root" to_ascii_lowercase
         [dl_rooted_at "/data/show" ["S01/e1.mkv"; "S01/e2.mkv"]]%string (w0 fs_show)) = Ok tt.
Proof. vm_compute. repeat split. Qed.

(** * The theorems at concrete inputs *)

(** C1 on Scenario C: ../escape.mkv canonicalizes to /data/escape.mkv,
    outside the root. *)
Lemma containment_witness :
  canonicalize (path_push show_root "../escape.mkv") (w0 fs_escape) =
    (Ok "/data/escape.mkv"%string,
     tick (w0 fs_escape) (ECanonicalize (path_push show_root "../escape.mkv"))) /\
  starts_with (components "/data/escape.mkv") (components show_root) = false /\
  remove_content sort_dirs NDir show_root ["../escape.mkv"]%string (w0 fs_escape) =
    (Panic, tick (w0 fs_escape) (ECanonicalize (path_push show_root "../escape.mkv"))) /\
  dirs_stay (w0 fs_escape)
    (tick (w0 fs_escape) (ECanonicalize (path_push show_root "../escape.mkv"))).
Proof.
  assert (Hc : canonicalize (path_push show_root "../escape.mkv") (w0 fs_escape) =
    (Ok "/data/escape.mkv"%string,
     tick (w0 fs_escape) (ECanonicalize (path_push show_root "../escape.mkv"))))
    by (vm_compute; reflexivity).
  assert (Hs : starts_with (components "/data/escape.mkv") (components show_root) = false)
    by (vm_compute; reflexivity).
  split; [exact Hc|]. split; [exact Hs|].
  exact (proj2 (containment sort_dirs show_root ["../escape.mkv"]%string (w0 fs_escape))
           [] "../escape.mkv"%string [] [] (w0 fs_escape) _ _ eq_refl eq_refl eq_refl Hc Hs).
Defined.

(** C2 on concrete worlds: no descriptor file in [fs_empty]; only the
    watch descriptor in Scenario B without its session file; no root
    /data/show in [fs_empty]; the manifest of Scenario B listing
    S01/e1.mkv twice. *)
Lemma absent_entries_witness :
  let ws := w0 (take 8 fs_show) in
  remove_state_files watched_a session_a (w0 fs_empty) =
    remove_if_exists session_a (tick (w0 fs_empty) (EStat watched_a)) /\
  remove_if_exists watched_a ws = (Ok tt, snd (remove_if_exists watched_a ws)) /\
  remove_state_files watched_a session_a ws =
    (Ok tt, tick (snd (remove_if_exists watched_a ws)) (EStat session_a)) /\
  delete_from_filesystem sort_dirs "/w/a.torrent" "/s/a.torrent" "/data/show/"
    (dl_files dl_show) (w0 fs_empty) =
    (Err ENOENT, tick (w0 fs_empty) (ELstat show_root)) /\
  delete_files show_root ["S01/e1.mkv"]%string [] (w0 fs_show) = (Ok ["S01"]%string, w_after_e1) /\
  resolve_path (w_fs w_after_e1) (path_push show_root "S01/e1.mkv") = RErr ENOENT /\
  remove_content sort_dirs NDir show_root ["S01/e1.mkv"; "S01/e1.mkv"]%string (w0 fs_show) =
    (Panic, tick w_after_e1 (ECanonicalize (path_push show_root "S01/e1.mkv"))).
Proof.
  cbv zeta.
  assert (Hw : resolve_path (w_fs (w0 fs_empty)) watched_a = RErr ENOENT)
    by (vm_compute; reflexivity).
  assert (Hx : remove_if_exists watched_a (w0 (take 8 fs_show)) =
               (Ok tt, snd (remove_if_exists watched_a (w0 (take 8 fs_show)))))
    by (vm_compute; reflexivity).
  assert (Hs : resolve_path (w_fs (snd (remove_if_exists watched_a (w0 (take 8 fs_show)))))
                 session_a = RErr ENOENT) by (vm_compute; reflexivity).
  assert (Ha : is_absolute (components show_root) = true) by reflexivity.
  assert (Hl : lookup_entry (w_fs (w0 fs_empty)) show_root = RErr ENOENT)
    by (vm_compute; reflexivity).
  assert (Hd : delete_files show_root ["S01/e1.mkv"]%string [] (w0 fs_show) =
               (Ok ["S01"]%string, w_after_e1)) by (vm_compute; reflexivity).
  assert (Hr : is_relative (components "S01/e1.mkv") = true) by reflexivity.
  assert (Hg : resolve_path (w_fs w_after_e1) (path_push show_root "S01/e1.mkv") = RErr ENOENT)
    by (vm_compute; reflexivity).
  destruct (absent_entries sort_dirs) as (H1 & H2 & H3 & H4).
  split; [exact (H1 _ session_a _ _ Hw)|].
  split; [exact Hx|].
  split; [exact (H2 _ _ _ _ _ Hx Hs)|].
  split; [exact (H3 "/w/a.torrent" "/s/a.torrent" "/data/show/" _ _ Ha Hl)|].
  split; [exact Hd|]. split; [exact Hg|].
  exact (H4 show_root ["S01/e1.mkv"]%string "S01/e1.mkv"%string [] _ _ _ _ Hd Hr Hg).
Defined.

(** C3 on /data/movie.mkv: the manifest ["movie.mkv"] succeeds, a
    manifest of two entries is refused before anything is touched. *)
Lemma single_file_fidelity_witness :
  (fst (remove_content sort_dirs NFile movie_root ["movie.mkv"]%string (w0 fs_watch_dir)) = Ok tt /\
   exists f, ["movie.mkv"]%string = [f] /\
             ends_with (components movie_root) (components f) = true) /\
  (~ (exists f, ["a.mkv"; "b.mkv"]%string = [f] /\
                ends_with (components movie_root) (components f) = true) /\
   remove_content sort_dirs NFile movie_root ["a.mkv"; "b.mkv"]%string (w0 fs_watch_dir) =
     (Panic, w0 fs_watch_dir)).
Proof.
  assert (H : fst (remove_content sort_dirs NFile movie_root ["movie.mkv"]%string (w0 fs_watch_dir))
              = Ok tt) by (vm_compute; reflexivity).
  assert (Hn : ~ (exists f, ["a.mkv"; "b.mkv"]%string = [f] /\
                            ends_with (components movie_root) (components f) = true))
    by (intros [f [Hf _]]; discriminate).
  split.
  - split; [exact H|]. exact (proj1 (single_file_fidelity sort_dirs _ _ _) H).
  - split; [exact Hn|]. exact (proj2 (single_file_fidelity sort_dirs _ _ _) Hn).
Defined.

(** C4 on concrete worlds: a missing root in [fs_empty]; Scenario B,
    whose root lstat succeeds; and the report of the first case by
    [delete]. *)
Lemma lstat_then_descriptors_then_content_witness :
  delete_from_filesystem sort_dirs "/w/a.torrent" "/s/a.torrent" "/data/show/"
    (dl_files dl_show) (w0 fs_empty) =
    (Err ENOENT, tick (w0 fs_empty) (ELstat show_root)) /\
  lookup_entry (w_fs (w0 fs_show)) show_root = ROk (["data"; "show"]%string, NDir) /\
  trace_grows (descriptor_event watched_a session_a) (tick (w0 fs_show) (ELstat show_root))
    (snd (remove_state_files watched_a session_a (tick (w0 fs_show) (ELstat show_root)))) /\
  root_ok (tilde "/root" (dl_base_path dl_show)) = true /\
  delete sort_dirs "/root" dl_show (w0 fs_empty) =
    (Ok tt, tick (tick (w0 fs_empty) (ELstat show_root)) (EPrint (RError (dl_name dl_show) ENOENT))).
Proof.
  assert (Ha : is_absolute (components show_root) = true) by reflexivity.
  assert (Hl : lookup_entry (w_fs (w0 fs_empty)) show_root = RErr ENOENT)
    by (vm_compute; reflexivity).
  assert (Hl' : lookup_entry (w_fs (w0 fs_show)) show_root = ROk (["data"; "show"]%string, NDir))
    by (vm_compute; reflexivity).
  assert (Hok : root_ok (tilde "/root" (dl_base_path dl_show)) = true) by (vm_compute; reflexivity).
  destruct (lstat_then_descriptors_then_content sort_dirs) as (H1 & H2 & H3).
  assert (He := H1 "/w/a.torrent" "/s/a.torrent" "/data/show/" (dl_files dl_show) _ _ Ha Hl).
  split; [exact He|]. split; [exact Hl'|].
  split; [exact (proj1 (H2 "/w/a.torrent" "/s/a.torrent" "/data/show/" (dl_files dl_show)
                          _ _ _ Ha Hl'))|].
  split; [exact Hok|].
  exact (H3 "/root" dl_show _ _ _ Hok He).
Defined.

(** C5 at [sort_dirs]. *)
Lemma nested_removal_fails_witness :
  arrange_ok sort_dirs /\
  fst (delete_from_filesystem sort_dirs "/w/a.torrent" "/s/a.torrent" "/data/show"
         nested_files (w0 fs_nested)) = Err ENOTEMPTY.
Proof. split; [exact sort_dirs_ok|]. exact (proj1 (nested_removal_fails sort_dirs sort_dirs_ok)). Defined.

(** C6 on /data/link, a symlink to the Scenario B directory. *)
Lemma symlink_non_recursion_witness :
  lookup_entry (w_fs (w0 fs_link)) link_root = ROk (["data"; "link"]%string, NSymlink "/data/show") /\
  remove_content sort_dirs (NSymlink "/data/show") link_root [] (w0 fs_link) =
    (Ok tt, World (base.delete ["data"; "link"]%string (w_fs (w0 fs_link))) [EUnlink link_root]).
Proof.
  assert (H : lookup_entry (w_fs (w0 fs_link)) link_root =
              ROk (["data"; "link"]%string, NSymlink "/data/show")) by (vm_compute; reflexivity).
  split; [exact H|]. exact (proj1 (symlink_non_recursion sort_dirs _ _ [] (w0 fs_link) _ H)).
Defined.

(** C7 on a download whose content path is "/", on a manifest entry
    /etc/passwd under a directory root, and on the absolute entry
    /data/movie.mkv under the file root /data/movie.mkv, which is
    removed. *)
Lemma precondition_violation_aborts_run_witness :
  root_ok (tilde "/root" (dl_base_path (dl_rooted_at "/" []))) = false /\
  main_loop sort_dirs "/root" to_ascii_lowercase [dl_rooted_at "/" []; dl_show] (w0 fs_show) =
    (Panic, tick (w0 fs_show) (EPrint (RUnregistered "tracker.example" "show"))) /\
  remove_content sort_dirs NDir show_root ["/etc/passwd"]%string (w0 fs_show) =
    (Panic, w0 fs_show) /\
  is_relative (components "/data/movie.mkv") = false /\
  remove_content sort_dirs NFile movie_root ["/data/movie.mkv"]%string (w0 fs_watch_dir) =
    remove_file movie_root (w0 fs_watch_dir) /\
  fst (remove_file movie_root (w0 fs_watch_dir)) = Ok tt /\
  main_loop sort_dirs "/root" to_ascii_lowercase [dl_rooted_at "/" []] (w0 fs_show) =
    (Panic, tick (w0 fs_show) (EPrint (RUnregistered "tracker.example" "show"))).
Proof.
  assert (Hu : is_unregistered to_ascii_lowercase (dl_message (dl_rooted_at "/" [])) = true)
    by (vm_compute; reflexivity).
  assert (Hh : dl_tracker_host (dl_rooted_at "/" []) = Some "tracker.example"%string)
    by reflexivity.
  assert (Hr : root_ok (tilde "/root" (dl_base_path (dl_rooted_at "/" []))) = false)
    by (vm_compute; reflexivity).
  assert (Hd : delete sort_dirs "/root" (dl_rooted_at "/" [])
                 (tick (w0 fs_show) (EPrint (RUnregistered "tracker.example"
                                               (dl_name (dl_rooted_at "/" []))))) =
               (Panic, tick (w0 fs_show) (EPrint (RUnregistered "tracker.example" "show"))))
    by (vm_compute; reflexivity).
  assert (Hrel : is_relative (components "/etc/passwd") = false) by reflexivity.
  assert (He : ends_with (components movie_root) (components "/data/movie.mkv") = true)
    by (vm_compute; reflexivity).
  assert (Hm : fst (remove_file movie_root (w0 fs_watch_dir)) = Ok tt)
    by (vm_compute; reflexivity).
  destruct (precondition_violation_aborts_run sort_dirs) as (H1 & H2 & H3 & H4 & H5).
  split; [exact Hr|].
  split; [exact (H1 "/root" _ _ [dl_show] _ (w0 fs_show) Hu Hh Hr)|].
  split; [exact (H2 show_root [] "/etc/passwd"%string [] (w0 fs_show) [] _ eq_refl Hrel)|].
  split; [reflexivity|].
  split; [exact (H4 movie_root "/data/movie.mkv"%string (w0 fs_watch_dir) He)|].
  split; [exact Hm|].
  exact (H5 "/root" _ _ [] _ (w0 fs_show) _ Hu Hh Hd).
Defined.


(** C9 on the empty directory /data/empty. *)
Lemma empty_manifest_directory_witness :
  arrange_ok sort_dirs /\
  has_nul empty_root = false /\ String.eqb empty_root "" = false /\
  last (kcomps empty_root) = Some (Normal "empty") /\
  parent_walk (w_fs (w0 fs_empty)) (kcomps empty_root) = ROk ["data"]%string /\
  w_fs (w0 fs_empty) !! (["data"%string] ++ ["empty"%string]) = Some NDir /\
  (fst (remove_content sort_dirs NDir empty_root [] (w0 fs_empty)) = Ok tt <->
   dir_empty (w_fs (w0 fs_empty)) (["data"%string] ++ ["empty"%string])).
Proof.
  assert (H1 : has_nul empty_root = false) by reflexivity.
  assert (H2 : String.eqb empty_root "" = false) by reflexivity.
  assert (H3 : last (kcomps empty_root) = Some (Normal "empty")) by (vm_compute; reflexivity).
  assert (H4 : parent_walk (w_fs (w0 fs_empty)) (kcomps empty_root) = ROk ["data"]%string)
    by (vm_compute; reflexivity).
  assert (H5 : w_fs (w0 fs_empty) !! (["data"%string] ++ ["empty"%string]) = Some NDir)
    by (vm_compute; reflexivity).
  split; [exact sort_dirs_ok|]. split; [exact H1|]. split; [exact H2|].
  split; [exact H3|]. split; [exact H4|]. split; [exact H5|].
  pose proof (empty_manifest_directory sort_dirs empty_root (w0 fs_empty) sort_dirs_ok) as Hth.
  destruct (remove_content sort_dirs NDir empty_root [] (w0 fs_empty)) as [r w'].
  exact (proj1 (proj2 (proj2 (proj2 Hth)) _ _ H1 H2 H3 H4 H5)).
Defined.

(** ** The further properties at concrete inputs *)

Lemma run_keeps_tree_witness :
  is_tree (w_fs (w0 fs_show)) /\
  is_tree (w_fs (snd (main_loop sort_dirs "/root" to_ascii_lowercase [dl_show] (w0 fs_show)))).
Proof.
  assert (H : is_tree (w_fs (w0 fs_show))) by (apply tree_check_sound; vm_compute; reflexivity).
  split; [exact H|]. exact (run_keeps_tree sort_dirs "/root" to_ascii_lowercase [dl_show] _ H).
Defined.

(** Scenario B: S01/e1.mkv is removed, and it is where a declared entry
    resolved. *)
Lemma dir_removal_frame_witness :
  let r := remove_content sort_dirs NDir show_root (dl_files dl_show) (w0 fs_show) in
  r = (Ok tt, snd r) /\
  w_fs (w0 fs_show) !! ["data"; "show"; "S01"; "e1.mkv"]%string = Some NFile /\
  w_fs (snd r) !! ["data"; "show"; "S01"; "e1.mkv"]%string = None /\
  exists f, f ∈ dl_files dl_show /\
    resolve_path (w_fs (w0 fs_show)) (path_push show_root f) =
      ROk ["data"; "show"; "S01"; "e1.mkv"]%string.
Proof.
  cbv zeta.
  assert (Hr : remove_content sort_dirs NDir show_root (dl_files dl_show) (w0 fs_show) =
    (Ok tt, snd (remove_content sort_dirs NDir show_root (dl_files dl_show) (w0 fs_show))))
    by (vm_compute; reflexivity).
  assert (Hk : w_fs (w0 fs_show) !! ["data"; "show"; "S01"; "e1.mkv"]%string = Some NFile)
    by (vm_compute; reflexivity).
  assert (Hn : w_fs (snd (remove_content sort_dirs NDir show_root (dl_files dl_show) (w0 fs_show)))
                 !! ["data"; "show"; "S01"; "e1.mkv"]%string = None)
    by (vm_compute; reflexivity).
  split; [exact Hr|]. split; [exact Hk|]. split; [exact Hn|].
  exact (dir_removal_frame sort_dirs show_root (dl_files dl_show) (w0 fs_show) _ _ Hr _ _ Hk
           ltac:(discriminate) Hn).
Defined.

Lemma dir_removal_success_clears_root_witness :
  let r := remove_content sort_dirs NDir show_root (dl_files dl_show) (w0 fs_show) in
  r = (Ok tt, snd r) /\
  exists k, lookup_entry (w_fs (w0 fs_show)) show_root = ROk (k, NDir) /\
            forall k', k `prefix_of` k' -> w_fs (snd r) !! k' = None.
Proof.
  cbv zeta.
  assert (Hr : remove_content sort_dirs NDir show_root (dl_files dl_show) (w0 fs_show) =
    (Ok tt, snd (remove_content sort_dirs NDir show_root (dl_files dl_show) (w0 fs_show))))
    by (vm_compute; reflexivity).
  split; [exact Hr|]. exact (dir_removal_success_clears_root _ _ _ _ _ Hr).
Defined.

Lemma file_loop_success_witness :
  delete_files show_root (dl_files dl_show) [] (w0 fs_show) =
    (Ok ["S01"]%string, snd (delete_files show_root (dl_files dl_show) [] (w0 fs_show))) /\
  ["S01"]%string = implied_dirs (dl_files dl_show).
Proof.
  assert (H : delete_files show_root (dl_files dl_show) [] (w0 fs_show) =
    (Ok ["S01"]%string, snd (delete_files show_root (dl_files dl_show) [] (w0 fs_show))))
    by (vm_compute; reflexivity).
  split; [exact H|]. exact (proj1 (file_loop_success _ _ _ _ _ H)).
Defined.

Lemma delete_squashes_errors_witness :
  root_ok (tilde "/root" (dl_base_path dl_show)) = true /\
  delete sort_dirs "/root" dl_show (w0 fs_empty) =
    (Ok tt, tick (tick (w0 fs_empty) (ELstat show_root)) (EPrint (RError "show" ENOENT))) /\
  root_ok (tilde "/root" (dl_base_path (dl_rooted_at "/" []))) = false /\
  delete sort_dirs "/root" (dl_rooted_at "/" []) (w0 fs_show) = (Panic, w0 fs_show).
Proof.
  assert (H1 : root_ok (tilde "/root" (dl_base_path dl_show)) = true) by (vm_compute; reflexivity).
  assert (H : root_ok (tilde "/root" (dl_base_path (dl_rooted_at "/" []))) = false)
    by (vm_compute; reflexivity).
  pose proof (proj1 (delete_squashes_errors sort_dirs "/root" dl_show (w0 fs_empty)) H1) as Hd.
  assert (Hf : delete_from_filesystem sort_dirs (tilde "/root" (dl_tied_to_file dl_show))
                 (tilde "/root" (dl_loaded_file dl_show)) (tilde "/root" (dl_base_path dl_show))
                 (dl_files dl_show) (w0 fs_empty) =
               (Err ENOENT, tick (w0 fs_empty) (ELstat show_root)))
    by (vm_compute; reflexivity).
  rewrite Hf in Hd.
  split; [exact H1|]. split; [exact Hd|]. split; [exact H|].
  exact (proj2 (proj2 (delete_squashes_errors sort_dirs "/root" _ (w0 fs_show))) H).
Defined.

Lemma main_loop_nothing_selected_witness :
  Forall (fun dl => is_unregistered to_ascii_lowercase (dl_message dl) = false)
    [dl_seeding; dl_seeding] /\
  main_loop sort_dirs "/root" to_ascii_lowercase [dl_seeding; dl_seeding] (w0 fs_show) =
    (Ok tt, w0 fs_show).
Proof.
  assert (H : Forall (fun dl => is_unregistered to_ascii_lowercase (dl_message dl) = false)
                [dl_seeding; dl_seeding])
    by (repeat constructor; vm_compute; reflexivity).
  split; [exact H|]. exact (main_loop_nothing_selected _ _ _ _ _ H).
Defined.
